(** * cursor-effect.js: particle bursts at the pointer

    A shallow embedding of [src/cursor-effect.js] (classes [Circle], [Boom]
    and [CursorSpecialEffects]) and the properties its specification states.

    Modelling conventions.
    - A JavaScript number is an exact real ([R]) in the classes [Circle],
      [Boom] and [CursorSpecialEffects]; [Math.sin], [Math.cos], [Math.PI]
      and [Math.floor] are [sin], [cos], [PI] and [Zfloor]. What is proved
      there is about order, counting, ranges and eventual behaviour, with
      room to spare where a bound is numeric. The exact value that repeated
      [+=] leaves in a binary64 number is another matter: for it [Circle64]
      models the particle over binary64, with the rounding of each
      operation.
    - Counters that start at 0 and are only incremented ([renderCount],
      [circleCount], loop indices) are [nat].
    - [Math.random] is a stream of draws threaded through the code.
    - An object mutated in place becomes a record that is passed and
      returned; the source copies [origin] into each particle
      ([{ ...origin }]) and builds a fresh [area] per burst, so no two
      records alias.
    - Reading an array past its end gives [undefined]; calling a method on
      it throws.  Loops that index an array therefore return [option].
    - A canvas is its pair of dimensions; the pixels written by [draw],
      [clearRect] and [drawImage] are not modelled, and the [context]
      fields, which only receive those writes, are left out. *)

From Stdlib Require Import Floats.
From Stdlib Require Import Reals Lra Lia List String Ascii ZArith Arith Bool.
Import ListNotations.

#[local] Set Warnings "-inexact-float".
#[local] Open Scope R_scope.

(** ** Plain data *)

(** [{x, y}] *)
Record Point := mkPoint { x : R; y : R }.

(** [{width, height}] *)
Record Area := mkArea { width : R; height : R }.

(** Comparison of numbers, as a boolean. *)
Definition ltb (a b : R) : bool := if Rlt_dec a b then true else false.
Definition gtb (a b : R) : bool := ltb b a.

(** ** class Circle *)

Module Circle.

Record t := mk {
  origin : Point;
  position : Point;
  color : string;
  speed : R;
  angle : R;
  renderCount : nat
}.

(** [constructor({ origin, speed, color, angle, context })] *)
Definition new (origin : Point) (speed : R) (color : string) (angle : R) : t :=
  {| origin := origin;
     position := origin;
     color := color;
     speed := speed;
     angle := angle;
     renderCount := 0 |}.

(** [move()] *)
Definition move (c : t) : t :=
  {| origin := origin c;
     position :=
       {| x := x (position c) + sin (angle c) * speed c;
          y := y (position c)
               + (cos (angle c) * speed c + INR (renderCount c) * 0.3) |};
     color := color c;
     speed := speed c;
     angle := angle c;
     renderCount := S (renderCount c) |}.

(** [n] successive calls of [move()]. *)
Definition moves (n : nat) (c : t) : t := Nat.iter n move c.

End Circle.

(** [0 + 1 + ... + (n - 1)] *)
Fixpoint sum_below (n : nat) : R :=
  match n with
  | O => 0
  | S m => sum_below m + INR m
  end.

(** ** class Circle over binary64

    The same class with the numbers JavaScript has: every [+], [*] and [+=]
    rounds to the nearest binary64 value. [Math.sin] and [Math.cos] are
    parameters: ECMA-262 leaves their results to the implementation, except
    at a few arguments such as [+0]. *)

Module Circle64.

Import PrimFloat.
#[local] Set Warnings "-inexact-float".
#[local] Open Scope float_scope.

(** [{x, y}] *)
Record Point := mkPoint { x : float; y : float }.

Record t := mk {
  origin : Point;
  position : Point;
  color : string;
  speed : float;
  angle : float;
  renderCount : float
}.

(** [constructor({ origin, speed, color, angle, context })] *)
Definition new (origin : Point) (speed : float) (color : string) (angle : float) : t :=
  {| origin := origin;
     position := origin;
     color := color;
     speed := speed;
     angle := angle;
     renderCount := 0 |}.

(** [move()] *)
Definition move (Math_sin Math_cos : float -> float) (c : t) : t :=
  {| origin := origin c;
     position :=
       {| x := x (position c) + Math_sin (angle c) * speed c;
          y := y (position c)
               + (Math_cos (angle c) * speed c + renderCount c * 0.3) |};
     color := color c;
     speed := speed c;
     angle := angle c;
     renderCount := renderCount c + 1 |}.

(** [n] successive calls of [move()]. *)
Definition moves (Math_sin Math_cos : float -> float) (n : nat) (c : t) : t :=
  Nat.iter n (move Math_sin Math_cos) c.

(** One [position.x += v]. *)
Definition add_x (v : float) (px : float) : float := px + v.

(** One [position.y += w + renderCount * 0.3; renderCount++] on the pair of
    [position.y] and [renderCount]. *)
Definition add_y (w : float) (p : float * float) : float * float :=
  (fst p + (w + snd p * 0.3), snd p + 1).

(** The natural number [n] as a JavaScript number, counted up from 0. *)
Definition of_nat (n : nat) : float := Nat.iter n (fun k => k + 1) 0.

(** [0 + 1 + ... + (n - 1)] in JavaScript arithmetic. *)
Fixpoint sum_below (n : nat) : float :=
  match n with
  | O => 0
  | S m => sum_below m + of_nat m
  end.

(** The closed-form check of the specification, evaluated as JavaScript
    would with [===]: after [n] moves of a new particle,
    [position.x - origin.x === n * sin(angle) * speed] and
    [position.y - origin.y === n * (cos(angle) * speed) + 0.3 * (0 + ... + (n - 1))]. *)
Definition closed_form_holds (Math_sin Math_cos : float -> float)
           (o : Point) (s : float) (col : string) (a : float) (n : nat) : bool :=
  let c := moves Math_sin Math_cos n (new o s col a) in
  (x (position c) - x (origin c) =? of_nat n * Math_sin a * s)
  && (y (position c) - y (origin c)
      =? of_nat n * (Math_cos a * s) + 0.3 * sum_below n).

(** [Math.sin] and [Math.cos] at the two angles the examples below use, and
    NaN elsewhere: at [+0] the values ECMA-262 prescribes, at
    [2.641592653589793] (the angle [init] makes of the draw 0.25) the values
    of the fdlibm routines that V8 and SpiderMonkey ship. *)
Definition sin_known (a : float) : float :=
  if a =? 0 then 0
  else if a =? 2.641592653589793 then 0.4794255386042031
  else nan.

Definition cos_known (a : float) : float :=
  if a =? 0 then 1
  else if a =? 2.641592653589793 then (-0.8775825618903726)
  else nan.

End Circle64.

(** ** Arrays *)

(** [a[i] = v] for an index inside the array. *)
Fixpoint set_nth {A : Type} (i : nat) (v : A) (l : list A) : list A :=
  match l, i with
  | [], _ => []
  | _ :: t, O => v :: t
  | h :: t, S j => h :: set_nth j v t
  end.

(** [a.splice(i, 1)]: the array without its entry at index [i]. *)
Definition splice1 {A : Type} (i : nat) (l : list A) : list A :=
  firstn i l ++ skipn (S i) l.

(** [a[i]] for a number [i] that is an integer: [undefined] outside the
    array. *)
Definition at_index {A : Type} (l : list A) (i : Z) : option A :=
  if (i <? 0)%Z then None else nth_error l (Z.to_nat i).

(** [a.join('')] on an array of strings; [undefined] entries print as the
    empty string. *)
Definition join (l : list (option string)) : string :=
  fold_right
    (fun o acc => (match o with Some s => s | None => EmptyString end ++ acc)%string)
    EmptyString l.

(** ** Math.random *)

(** The draws still to come, next one first. *)
Definition rng := nat -> R.

(** A computation that consumes draws. *)
Definition Rand (A : Type) : Type := rng -> A * rng.

Definition ret {A : Type} (a : A) : Rand A := fun g => (a, g).

Definition bind {A B : Type} (m : Rand A) (k : A -> Rand B) : Rand B :=
  fun g => let (a, g') := m g in k a g'.

Notation "v <- m ;; k" := (bind m (fun v => k))
  (at level 61, m at next level, right associativity).

(** [Math.random()] *)
Definition Math_random : Rand R := fun g => (g O, fun i => g (S i)).

(** Every draw lies in [[0, 1)], as [Math.random] promises. *)
Definition unit_draws (g : rng) : Prop := forall i : nat, 0 <= g i < 1.

(** [[...Array(n)].map(() => f())] *)
Fixpoint map_times {A : Type} (n : nat) (f : Rand A) : Rand (list A) :=
  match n with
  | O => ret []
  | S m => a <- f ;; l <- map_times m f ;; ret (a :: l)
  end.

(** ** class Boom *)

Module Boom.

Record t := mk {
  origin : Point;
  circleCount : nat;
  area : Area;
  stop : bool;
  circles : list Circle.t
}.

(** [constructor({ origin, context, circleCount = 10, area })] *)
Definition new (origin : Point) (circleCount : option nat) (area : Area) : t :=
  {| origin := origin;
     circleCount := match circleCount with Some k => k | None => 10 end;
     area := area;
     stop := false;
     circles := [] |}.

(** The index computed by [#randomArray]:
    [Math.floor(range.length * Math.random())]. *)
Definition randomIndex (len : nat) (r : R) : Z := Zfloor (INR len * r).

(** [#randomArray(range)] *)
Definition randomArray {A : Type} (range : list A) : Rand (option A) :=
  r <- Math_random ;; ret (at_index range (randomIndex (List.length range) r)).

Definition palette : list string := ["8"; "9"; "A"; "B"; "C"; "D"; "E"; "F"]%string.

(** An entry that [#randomColor] hands to [join]: a palette symbol, not
    [undefined]. *)
Definition palette_entry (o : option string) : Prop :=
  exists s : string, o = Some s /\ In s palette.

(** [#randomColor()] *)
Definition randomColor : Rand string :=
  cs <- map_times 6 (randomArray palette) ;; ret ("#" ++ join cs)%string.

(** [#randomRange(start, end)]. Over exact reals a draw below 1 gives a
    result below [end]; in binary64 the sum can round up to [end], so only
    the closed interval is stated of it. *)
Definition randomRange (start end_ : R) : Rand R :=
  r <- Math_random ;; ret ((end_ - start) * r + start).

Definition push (b : t) (c : Circle.t) : t :=
  {| origin := origin b;
     circleCount := circleCount b;
     area := area b;
     stop := stop b;
     circles := circles b ++ [c] |}.

(** The [n] iterations of the loop of [init] that are still to run. *)
Fixpoint init_loop (n : nat) (b : t) : Rand t :=
  match n with
  | O => ret b
  | S m =>
      col <- randomColor ;;
      a <- randomRange (PI - 1) (PI + 1) ;;
      s <- randomRange 1 6 ;;
      init_loop m (push b (Circle.new (origin b) s col a))
  end.

(** [init()] *)
Definition init (b : t) : Rand t := init_loop (circleCount b) b.

(** The test of [move] on a particle that has just moved. *)
Definition outside (a : Area) (c : Circle.t) : bool :=
  ltb (x (Circle.position c)) 0
  || gtb (x (Circle.position c)) (width a)
  || gtb (y (Circle.position c)) (height a).

(** The same test as a proposition on a position. *)
Definition out_of_bounds (a : Area) (p : Point) : Prop :=
  x p < 0 \/ x p > width a \/ y p > height a.

(** The loop of [move] with [i] indices left: it visits [i - 1], ..., [0].
    [None] is the exception thrown by [circle.move()] when [circles[i]] is
    [undefined]. *)
Fixpoint move_loop (i : nat) (a : Area) (cs : list Circle.t)
  : option (list Circle.t) :=
  match i with
  | O => Some cs
  | S j =>
      match nth_error cs j with
      | None => None
      | Some circle =>
          let circle' := Circle.move circle in
          let cs' := set_nth j circle' cs in
          if outside a circle' then move_loop j a (splice1 j cs')
          else move_loop j a cs'
      end
  end.

(** [move()] *)
Definition move (b : t) : option t :=
  match move_loop (List.length (circles b)) (area b) (circles b) with
  | None => None
  | Some cs =>
      Some {| origin := origin b;
              circleCount := circleCount b;
              area := area b;
              stop := (List.length cs =? 0)%nat;
              circles := cs |}
  end.

(** [n] successive calls of [move()]. *)
Fixpoint moves (n : nat) (b : t) : option t :=
  match n with
  | O => Some b
  | S m => match move b with None => None | Some b' => moves m b' end
  end.

(** What one call of [move] leaves in [circles], written as a filter. *)
Definition survivors (a : Area) (cs : list Circle.t) : list Circle.t :=
  filter (fun c => negb (outside a c)) (map Circle.move cs).

(** The burst after one call of [move], written with [survivors]. *)
Definition moved (b : t) : t :=
  {| origin := origin b;
     circleCount := circleCount b;
     area := area b;
     stop := (List.length (survivors (area b) (circles b)) =? 0)%nat;
     circles := survivors (area b) (circles b) |}.

(** A colour as [#randomColor] promises it: the marker ["#"] and six
    characters of the palette. *)
Definition palette_char (ch : ascii) : bool :=
  existsb (String.eqb (String ch EmptyString)) palette.

Definition color_ok (s : string) : bool :=
  match s with
  | String "#" rest =>
      (String.length rest =? 6)%nat && forallb palette_char (list_ascii_of_string rest)
  | _ => false
  end.

(** The eight palette symbols as characters. *)
Definition palette_chars : list ascii :=
  ["8"; "9"; "A"; "B"; "C"; "D"; "E"; "F"]%char.

(** A particle as [init] makes it for a burst at [o]. *)
Definition fresh_particle (o : Point) (c : Circle.t) : Prop :=
  Circle.origin c = o
  /\ Circle.position c = o
  /\ Circle.renderCount c = O
  /\ PI - 1 <= Circle.angle c <= PI + 1
  /\ 1 <= Circle.speed c <= 6
  /\ color_ok (Circle.color c) = true.

(** The colour that [#randomColor] makes of the draws [g k], ...,
    [g (k + 5)]. *)
Definition color_from (g : rng) (k : nat) : string :=
  ("#" ++ join (map (fun j => at_index palette
                                 (randomIndex (List.length palette) (g (k + j)%nat)))
                    (seq 0 6)))%string.

(** The particle that the iteration [j] of the loop of [init] makes for a
    burst at [o], when [g] is the stream of draws at the start of [init]. *)
Definition particle_from (o : Point) (g : rng) (j : nat) : Circle.t :=
  Circle.new o
             ((6 - 1) * g (8 * j + 7)%nat + 1)
             (color_from g (8 * j))
             ((PI + 1 - (PI - 1)) * g (8 * j + 6)%nat + (PI - 1)).

End Boom.

(** ** The browser *)

(** A canvas element: [canvas.width] and [canvas.height]. *)
Record Canvas := mkCanvas { cwidth : R; cheight : R }.

(** The size of a canvas made by [document.createElement('canvas')]. *)
Definition createCanvas : Canvas := {| cwidth := 300; cheight := 150 |}.

(** The window: the viewport, the animation-frame callbacks requested and
    neither run nor cancelled yet (oldest first, by handle; every callback
    this program registers is [run]), the last handle handed out, and the
    draws of [Math.random] to come. *)
Record Window := mkWindow {
  innerWidth : R;
  innerHeight : R;
  frames : list nat;
  lastHandle : nat;
  random : rng
}.

(** [requestAnimationFrame(callback)]: a fresh, non-zero handle. *)
Definition requestAnimationFrame (w : Window) : nat * Window :=
  let id := S (lastHandle w) in
  (id, {| innerWidth := innerWidth w;
          innerHeight := innerHeight w;
          frames := frames w ++ [id];
          lastHandle := id;
          random := random w |}).

(** [cancelAnimationFrame(id)]: nothing happens when [id] is not pending. *)
Definition cancelAnimationFrame (id : nat) (w : Window) : Window :=
  {| innerWidth := innerWidth w;
     innerHeight := innerHeight w;
     frames := filter (fun h => negb (h =? id)%nat) (frames w);
     lastHandle := lastHandle w;
     random := random w |}.

(** ** class CursorSpecialEffects *)

Module CursorSpecialEffects.

Record t := mk {
  computerCanvas : Canvas;
  renderCanvas : Canvas;
  globalWidth : R;
  globalHeight : R;
  booms : list Boom.t;
  running : bool;
  animationId : option nat
}.

(** The controller and the window it lives in. *)
Record World := mkWorld { this : t; win : Window }.

(** [constructor()] *)
Definition new (w : Window) : t :=
  {| computerCanvas := createCanvas;
     renderCanvas := createCanvas;
     globalWidth := innerWidth w;
     globalHeight := innerHeight w;
     booms := [];
     running := false;
     animationId := None |}.

Definition set_booms (bs : list Boom.t) (c : t) : t :=
  {| computerCanvas := computerCanvas c;
     renderCanvas := renderCanvas c;
     globalWidth := globalWidth c;
     globalHeight := globalHeight c;
     booms := bs;
     running := running c;
     animationId := animationId c |}.

Definition set_running (r : bool) (c : t) : t :=
  {| computerCanvas := computerCanvas c;
     renderCanvas := renderCanvas c;
     globalWidth := globalWidth c;
     globalHeight := globalHeight c;
     booms := booms c;
     running := r;
     animationId := animationId c |}.

Definition set_animationId (a : option nat) (c : t) : t :=
  {| computerCanvas := computerCanvas c;
     renderCanvas := renderCanvas c;
     globalWidth := globalWidth c;
     globalHeight := globalHeight c;
     booms := booms c;
     running := running c;
     animationId := a |}.

(** [if (this.animationId)]: [null] and [0] are falsy. *)
Definition truthy (a : option nat) : bool :=
  match a with
  | Some (S _) => true
  | _ => false
  end.

(** [stopAnimation()] *)
Definition stopAnimation (s : World) : World :=
  let s1 :=
    match animationId (this s) with
    | Some id =>
        if truthy (Some id)
        then {| this := set_animationId None (this s);
                win := cancelAnimationFrame id (win s) |}
        else s
    | None => s
    end in
  {| this := set_running false (this s1); win := win s1 |}.

(** The loop of [run] with [i] indices left: it visits [i - 1], ..., [0].
    [None] is an exception: [booms[i]] is [undefined], or [boom.move()]
    threw. *)
Fixpoint run_loop (i : nat) (bs : list Boom.t) : option (list Boom.t) :=
  match i with
  | O => Some bs
  | S j =>
      match nth_error bs j with
      | None => None
      | Some boom =>
          if Boom.stop boom then run_loop j (splice1 j bs)
          else
            match Boom.move boom with
            | None => None
            | Some boom' => run_loop j (set_nth j boom' bs)
            end
      end
  end.

(** [run()]. The calls on the two contexts ([clearRect], [boom.draw()],
    [drawImage]) change no field of the controller and are left out, and so
    is whatever they may throw; [None] stands for the one failure of the
    code that is modelled, reading [undefined] from an array. *)
Definition run (s : World) : option World :=
  let c := set_running true (this s) in
  if (List.length (booms c) =? 0)%nat
  then Some (stopAnimation {| this := c; win := win s |})
  else
    let (id, w) := requestAnimationFrame (win s) in
    let c := set_animationId (Some id) c in
    match run_loop (List.length (booms c)) (booms c) with
    | None => None
    | Some bs => Some {| this := set_booms bs c; win := w |}
    end.

(** [handleMouseDown(e)], with [e.clientX] and [e.clientY]. *)
Definition handleMouseDown (clientX clientY : R) (s : World) : option World :=
  let c := this s in
  let boom :=
    Boom.new {| x := clientX; y := clientY |} None
             {| width := globalWidth c; height := globalHeight c |} in
  let (boom, g) := Boom.init boom (random (win s)) in
  let s :=
    {| this := set_booms (booms c ++ [boom]) c;
       win := {| innerWidth := innerWidth (win s);
                 innerHeight := innerHeight (win s);
                 frames := frames (win s);
                 lastHandle := lastHandle (win s);
                 random := g |} |} in
  if negb (running (this s)) then run s else Some s.

(** [handlePageHide()] *)
Definition handlePageHide (s : World) : World :=
  stopAnimation {| this := set_booms [] (this s); win := win s |}.

(** [handleResize()] *)
Definition handleResize (s : World) : World :=
  let c := this s in
  let w := innerWidth (win s) in
  let h := innerHeight (win s) in
  {| this :=
       {| computerCanvas := {| cwidth := w; cheight := h |};
          renderCanvas := {| cwidth := w; cheight := h |};
          globalWidth := w;
          globalHeight := h;
          booms := booms c;
          running := running c;
          animationId := animationId c |};
     win := win s |}.

(** [init()]: the style of the canvas and its place in the document are
    not modelled; the three listeners are the cases of [dispatch]. *)
Definition init (s : World) : World := handleResize s.

(** [new CursorSpecialEffects().init()] *)
Definition boot (w : Window) : World := init {| this := new w; win := w |}.

(** What the browser delivers. *)
Inductive Event :=
| MouseDown (clientX clientY : R)
| PageHide
| Resize (innerWidth innerHeight : R)
| AnimationFrame.

(** The window after the user resized it. *)
Definition resized (iw ih : R) (w : Window) : Window :=
  {| innerWidth := iw;
     innerHeight := ih;
     frames := frames w;
     lastHandle := lastHandle w;
     random := random w |}.

(** The world in which the browser runs a callback it took off
    [frames]. *)
Definition fired (rest : list nat) (s : World) : World :=
  {| this := this s;
     win := {| innerWidth := innerWidth (win s);
               innerHeight := innerHeight (win s);
               frames := rest;
               lastHandle := lastHandle (win s);
               random := random (win s) |} |}.

(** The browser takes the oldest pending callback off its list and runs
    it. *)
Definition animationFrame (s : World) : option World :=
  match frames (win s) with
  | [] => Some s
  | _ :: rest => run (fired rest s)
  end.

(** The handler of each event. A resize is delivered together with the new
    viewport size: the time between the change of the viewport and the
    call of the handler is not modelled. *)
Definition dispatch (e : Event) (s : World) : option World :=
  match e with
  | MouseDown cx cy => handleMouseDown cx cy s
  | PageHide => Some (handlePageHide s)
  | Resize iw ih => Some (handleResize {| this := this s; win := resized iw ih (win s) |})
  | AnimationFrame => animationFrame s
  end.

(** [n] animation frames in a row, nothing else happening. *)
Fixpoint animationFrames (n : nat) (s : World) : option World :=
  match n with
  | O => Some s
  | S m =>
      match animationFrame s with
      | None => None
      | Some s' => animationFrames m s'
      end
  end.

(** The states the program can be in: it boots in a window with no frame
    requested, then handles events. *)
Inductive reachable : World -> Prop :=
| reach_boot (iw ih : R) (last : nat) (g : rng) :
    reachable (boot {| innerWidth := iw; innerHeight := ih; frames := [];
                       lastHandle := last; random := g |})
| reach_step (e : Event) (s s' : World) :
    reachable s -> dispatch e s = Some s' -> reachable s'.

(** The two states of the controller. *)
Definition Idle (s : World) : Prop :=
  running (this s) = false
  /\ animationId (this s) = None
  /\ frames (win s) = []
  /\ booms (this s) = [].

Definition Running (s : World) : Prop :=
  running (this s) = true
  /\ exists id : nat,
       id <> O /\ frames (win s) = [id] /\ animationId (this s) = Some id.

(** The burst that [handleMouseDown] makes and initialises. *)
Definition new_boom (clientX clientY : R) (s : World) : Boom.t :=
  fst (Boom.init
         (Boom.new {| x := clientX; y := clientY |} None
                   {| width := globalWidth (this s);
                      height := globalHeight (this s) |})
         (random (win s))).

(** The world of [handleMouseDown] once that burst is in [booms]. *)
Definition pressed (clientX clientY : R) (s : World) : World :=
  {| this := set_booms (booms (this s) ++ [new_boom clientX clientY s]) (this s);
     win := {| innerWidth := innerWidth (win s);
               innerHeight := innerHeight (win s);
               frames := frames (win s);
               lastHandle := lastHandle (win s);
               random :=
                 snd (Boom.init
                        (Boom.new {| x := clientX; y := clientY |} None
                                  {| width := globalWidth (this s);
                                     height := globalHeight (this s) |})
                        (random (win s))) |} |}.

(** What the loop of [run] leaves in [booms], written as a filter: a
    burst that had stopped is dropped, any other has moved once. *)
Definition frame_booms (bs : list Boom.t) : list Boom.t :=
  flat_map (fun b => if Boom.stop b then [] else [Boom.moved b]) bs.

(** The world after [run], written with [frame_booms]. *)
Definition ran (s : World) : World :=
  match booms (this s) with
  | [] => stopAnimation {| this := set_running true (this s); win := win s |}
  | _ :: _ =>
      {| this :=
           set_booms (frame_booms (booms (this s)))
             (set_animationId (Some (fst (requestAnimationFrame (win s))))
                (set_running true (this s)));
         win := snd (requestAnimationFrame (win s)) |}
  end.

(** Both canvases have the stored size. *)
Definition sized (s : World) : Prop :=
  computerCanvas (this s)
  = {| cwidth := globalWidth (this s); cheight := globalHeight (this s) |}
  /\ renderCanvas (this s)
     = {| cwidth := globalWidth (this s); cheight := globalHeight (this s) |}.

(** A particle of the burst [b] that has made [n] moves: it belongs to [b]
    and, once it has moved, lies inside the area of [b]. *)
Definition on_track (b : Boom.t) (n : nat) (c : Circle.t) : Prop :=
  Circle.renderCount c = n
  /\ Circle.origin c = Boom.origin b
  /\ ((1 <= n)%nat ->
      0 <= x (Circle.position c) <= width (Boom.area b)
      /\ y (Circle.position c) <= height (Boom.area b)).

(** A burst as the controller keeps it: made with the default count, never
    holding more particles than that, all of the same age, and without
    particles once it has stopped. *)
Definition well_kept (b : Boom.t) : Prop :=
  Boom.circleCount b = 10%nat
  /\ (List.length (Boom.circles b) <= 10)%nat
  /\ (Boom.stop b = true -> Boom.circles b = [])
  /\ exists n : nat, Forall (on_track b n) (Boom.circles b).

End CursorSpecialEffects.

(** ** A running controller with one burst of one particle *)

Definition example_circle : Circle.t :=
  Circle.new (mkPoint 100 100) 1 "#888888" PI.

Definition example_boom : Boom.t :=
  Boom.mk (mkPoint 100 100) 1 (mkArea 800 600) false [example_circle].

(** A particle at [(px, py)] heading straight down at speed 1. *)
Definition falling (px py : R) : Circle.t :=
  Circle.mk (mkPoint px py) (mkPoint px py) "#888888" 1 0 0.

(** Three particles, the last two about to cross the lower edge. *)
Definition example_trio : Boom.t :=
  Boom.mk (mkPoint 100 100) 3 (mkArea 800 600) false
          [falling 100 100; falling 100 600; falling 100 700].

Definition example_world : CursorSpecialEffects.World :=
  {| CursorSpecialEffects.this :=
       CursorSpecialEffects.mk (mkCanvas 800 600) (mkCanvas 800 600) 800 600
                               [example_boom] true (Some 1%nat);
     CursorSpecialEffects.win := mkWindow 800 600 [1%nat] 1 (fun _ => 0) |}.

(** A burst of the default 10 particles at (100, 100) in an 800 x 600
    area, when every draw is 0. *)
Definition example_burst : Boom.t :=
  fst (Boom.init (Boom.new (mkPoint 100 100) None (mkArea 800 600))
                 (fun _ => 0)).

(** A controller just booted in an 800 x 600 window, and the same after a
    mouse-down at (100, 100), when every draw is 0. *)
Definition example_boot : CursorSpecialEffects.World :=
  CursorSpecialEffects.boot (mkWindow 800 600 [] O (fun _ => 0)).

Definition example_pressed : CursorSpecialEffects.World :=
  CursorSpecialEffects.ran (CursorSpecialEffects.pressed 100 100 example_boot).

(** ** Circle: the accumulated displacement *)

Lemma Circle_moves_S (n : nat) (c : Circle.t) :
  Circle.moves (S n) c = Circle.move (Circle.moves n c).
Proof. reflexivity. Qed.

Lemma Circle_moves_fixed (n : nat) (c : Circle.t) :
  Circle.origin (Circle.moves n c) = Circle.origin c
  /\ Circle.color (Circle.moves n c) = Circle.color c
  /\ Circle.speed (Circle.moves n c) = Circle.speed c
  /\ Circle.angle (Circle.moves n c) = Circle.angle c
  /\ Circle.renderCount (Circle.moves n c) = (n + Circle.renderCount c)%nat.
Proof.
  induction n as [|n IH]; [now simpl|].
  rewrite Circle_moves_S. destruct IH as (Ho & Hc & Hs & Ha & Hr).
  simpl. rewrite Hr. auto.
Qed.

(** Position after [n] moves from any state of the particle. *)
Lemma Circle_moves_position (n : nat) (c : Circle.t) :
  x (Circle.position (Circle.moves n c))
  = x (Circle.position c) + INR n * sin (Circle.angle c) * Circle.speed c
  /\ y (Circle.position (Circle.moves n c))
     = y (Circle.position c)
       + INR n * (cos (Circle.angle c) * Circle.speed c)
       + 0.3 * (INR n * INR (Circle.renderCount c) + sum_below n).
Proof.
  induction n as [|n [IHx IHy]].
  - simpl. split; lra.
  - rewrite Circle_moves_S.
    destruct (Circle_moves_fixed n c) as (_ & _ & Hs & Ha & Hr).
    unfold Circle.move; cbn [Circle.position x y].
    rewrite IHx, IHy, Hs, Ha, Hr, plus_INR, S_INR.
    cbn [sum_below]. split; lra.
Qed.

(** ** Circle over binary64: the rounded accumulation *)

Lemma Circle64_moves_S (sn cs : PrimFloat.float -> PrimFloat.float)
      (n : nat) (c : Circle64.t) :
  Circle64.moves sn cs (S n) c = Circle64.move sn cs (Circle64.moves sn cs n c).
Proof. reflexivity. Qed.

Lemma Circle64_moves_state (sn cs : PrimFloat.float -> PrimFloat.float)
      (n : nat) (c : Circle64.t) :
  Circle64.origin (Circle64.moves sn cs n c) = Circle64.origin c
  /\ Circle64.color (Circle64.moves sn cs n c) = Circle64.color c
  /\ Circle64.speed (Circle64.moves sn cs n c) = Circle64.speed c
  /\ Circle64.angle (Circle64.moves sn cs n c) = Circle64.angle c
  /\ Circle64.x (Circle64.position (Circle64.moves sn cs n c))
     = Nat.iter n
         (Circle64.add_x (PrimFloat.mul (sn (Circle64.angle c)) (Circle64.speed c)))
         (Circle64.x (Circle64.position c))
  /\ (Circle64.y (Circle64.position (Circle64.moves sn cs n c)),
      Circle64.renderCount (Circle64.moves sn cs n c))
     = Nat.iter n
         (Circle64.add_y (PrimFloat.mul (cs (Circle64.angle c)) (Circle64.speed c)))
         (Circle64.y (Circle64.position c), Circle64.renderCount c).
Proof.
  induction n as [|n (Ho & Hc & Hs & Ha & Hx & Hy)]; [now repeat split|].
  rewrite Circle64_moves_S, !Nat.iter_succ, <- Hx, <- Hy.
  unfold Circle64.move, Circle64.add_x, Circle64.add_y.
  cbn [Circle64.origin Circle64.color Circle64.speed Circle64.angle
       Circle64.position Circle64.renderCount Circle64.x Circle64.y fst snd].
  rewrite Hs, Ha. now repeat split.
Qed.

(** A press at (100, 100) with the draws 0.25 for the angle and 0.3 for
    the speed: angle 2.641592653589793, speed 2.5. After one move [position.x - origin.x]
    is 1.1985638465105097 although [sin(angle) * speed] is
    1.1985638465105077. *)
Example press_one_move_x :
  PrimFloat.sub
    (Circle64.x
       (Circle64.position
          (Circle64.moves Circle64.sin_known Circle64.cos_known 1
             (Circle64.new (Circle64.mkPoint 100 100) 2.5 "#888888"
                           2.641592653589793))))
    100%float
  = 1.1985638465105097%float
  /\ PrimFloat.mul (Circle64.sin_known 2.641592653589793) 2.5
     = 1.1985638465105077%float.
Proof. split; vm_compute; reflexivity. Qed.

(** C1, as stated, fails in the arithmetic of the code. A particle made at
    (100, 100) with angle 0 and speed 1.1 has, after one [move()],
    [position.y - origin.y] equal to 1.0999999999999943 and not to
    [1 * (cos(0) * 1.1) + 0.3 * 0 = 1.1], because [100 + 1.1] rounds; and
    the particle of the press above, angle 2.641592653589793 and speed 2.5,
    fails the check on both coordinates. *)
Lemma C1_counterexample :
  Circle64.closed_form_holds Circle64.sin_known Circle64.cos_known
    (Circle64.mkPoint 100 100) 1.1 "#888888" 0 1
  = false
  /\ Circle64.closed_form_holds Circle64.sin_known Circle64.cos_known
       (Circle64.mkPoint 100 100) 2.5 "#888888" 2.641592653589793 1
     = false.
Proof. split; vm_compute; reflexivity. Qed.

(** C1, amended: one [move()] sets [position.x] to the binary64 sum of
    [position.x] and [sin(angle) * speed], [position.y] to the binary64 sum
    of [position.y] and [cos(angle) * speed + renderCount * 0.3], and
    increments [renderCount]; so after [n] calls on a new particle
    [position.x] is [origin.x] after [n] rounded additions of
    [sin(angle) * speed], and [position.y] with [renderCount] is what [n]
    rounded steps [y += cos(angle) * speed + k * 0.3; k++] make of
    [origin.y] and 0, while origin, angle and speed are unchanged. With
    exact real arithmetic in place of binary64 the same recurrence gives
    [position.x - origin.x = n * sin(angle) * speed] and
    [position.y - origin.y = n * (cos(angle) * speed)
    + 0.3 * (0 + 1 + ... + (n - 1))]. *)
Theorem C1_rounded_accumulation :
  (forall (Math_sin Math_cos : PrimFloat.float -> PrimFloat.float)
          (c : Circle64.t),
      Circle64.x (Circle64.position (Circle64.move Math_sin Math_cos c))
      = PrimFloat.add (Circle64.x (Circle64.position c))
                      (PrimFloat.mul (Math_sin (Circle64.angle c))
                                     (Circle64.speed c))
      /\ Circle64.y (Circle64.position (Circle64.move Math_sin Math_cos c))
         = PrimFloat.add
             (Circle64.y (Circle64.position c))
             (PrimFloat.add
                (PrimFloat.mul (Math_cos (Circle64.angle c)) (Circle64.speed c))
                (PrimFloat.mul (Circle64.renderCount c) 0.3%float))
      /\ Circle64.renderCount (Circle64.move Math_sin Math_cos c)
         = PrimFloat.add (Circle64.renderCount c) 1%float
      /\ Circle64.origin (Circle64.move Math_sin Math_cos c) = Circle64.origin c
      /\ Circle64.angle (Circle64.move Math_sin Math_cos c) = Circle64.angle c
      /\ Circle64.speed (Circle64.move Math_sin Math_cos c) = Circle64.speed c)
  /\ (forall (Math_sin Math_cos : PrimFloat.float -> PrimFloat.float)
             (o : Circle64.Point) (s a : PrimFloat.float) (col : string)
             (n : nat),
         let c := Circle64.moves Math_sin Math_cos n (Circle64.new o s col a) in
         Circle64.x (Circle64.position c)
         = Nat.iter n (Circle64.add_x (PrimFloat.mul (Math_sin a) s))
                    (Circle64.x o)
         /\ (Circle64.y (Circle64.position c), Circle64.renderCount c)
            = Nat.iter n (Circle64.add_y (PrimFloat.mul (Math_cos a) s))
                       (Circle64.y o, 0%float)
         /\ Circle64.origin c = o
         /\ Circle64.angle c = a
         /\ Circle64.speed c = s)
  /\ (forall (o : Point) (s a : R) (col : string) (n : nat),
         let c := Circle.moves n (Circle.new o s col a) in
         x (Circle.position c) - x (Circle.origin c) = INR n * sin a * s
         /\ y (Circle.position c) - y (Circle.origin c)
            = INR n * (cos a * s) + 0.3 * sum_below n
         /\ Circle.renderCount c = n).
Proof.
  split; [|split].
  - intros sn cs c. now repeat split.
  - intros sn cs o s a col n c.
    destruct (Circle64_moves_state sn cs n (Circle64.new o s col a))
      as (Ho & _ & Hs & Ha & Hx & Hy).
    subst c. rewrite Hx, Hy, Ho, Hs, Ha. now repeat split.
  - intros o s a col n c.
    destruct (Circle_moves_position n (Circle.new o s col a)) as [Hx Hy].
    destruct (Circle_moves_fixed n (Circle.new o s col a))
      as (Ho & _ & _ & _ & Hr).
    subst c. rewrite Hx, Hy, Ho, Hr. cbn. repeat split; try lra; lia.
Qed.

(** ** Arrays: the three operations the loops use *)

Lemma nth_error_middle {A : Type} (pre post : list A) (v : A) :
  nth_error (pre ++ v :: post) (List.length pre) = Some v.
Proof. induction pre as [|h pre IH]; [reflexivity | exact IH]. Qed.

Lemma set_nth_middle {A : Type} (pre post : list A) (v v' : A) :
  set_nth (List.length pre) v' (pre ++ v :: post) = pre ++ v' :: post.
Proof.
  induction pre as [|h pre IH]; [reflexivity|].
  cbn [List.length app set_nth]. now rewrite IH.
Qed.

Lemma splice1_middle {A : Type} (pre post : list A) (v : A) :
  splice1 (List.length pre) (pre ++ v :: post) = pre ++ post.
Proof.
  unfold splice1.
  induction pre as [|h pre IH]; [reflexivity|].
  cbn [List.length app firstn skipn] in *. now rewrite IH.
Qed.

Lemma length_zero_iff {A : Type} (l : list A) :
  (List.length l =? 0)%nat = true <-> l = [].
Proof. destruct l; cbn; split; congruence. Qed.

(** ** Boom.move: the loop is a filter *)

Lemma ltb_spec (a b : R) : ltb a b = true <-> a < b.
Proof. unfold ltb. destruct (Rlt_dec a b); split; intros; congruence || lra. Qed.

Lemma outside_spec (a : Area) (c : Circle.t) :
  Boom.outside a c = true <-> Boom.out_of_bounds a (Circle.position c).
Proof.
  unfold Boom.outside, Boom.out_of_bounds, gtb.
  rewrite !orb_true_iff, !ltb_spec. unfold Rgt. tauto.
Qed.

Lemma survivors_snoc (a : Area) (pre : list Circle.t) (c : Circle.t) :
  Boom.survivors a (pre ++ [c])
  = Boom.survivors a pre
    ++ (if Boom.outside a (Circle.move c) then [] else [Circle.move c]).
Proof.
  unfold Boom.survivors. rewrite map_app, filter_app. cbn.
  now destruct (Boom.outside a (Circle.move c)).
Qed.

(** With the entries after index [length pre] already visited, the loop
    turns the entries before it into their survivors and leaves the rest. *)
Lemma move_loop_spec (a : Area) (pre post : list Circle.t) :
  Boom.move_loop (List.length pre) a (pre ++ post)
  = Some (Boom.survivors a pre ++ post).
Proof.
  revert post. induction pre as [|c pre IH] using rev_ind; intros post.
  - reflexivity.
  - rewrite length_app, Nat.add_comm. cbn [List.length Nat.add Boom.move_loop].
    rewrite <- app_assoc. cbn [app].
    rewrite nth_error_middle, set_nth_middle, survivors_snoc.
    destruct (Boom.outside a (Circle.move c)).
    + now rewrite splice1_middle, IH, app_nil_r.
    + now rewrite IH, <- app_assoc.
Qed.

Lemma Boom_move_moved (b : Boom.t) : Boom.move b = Some (Boom.moved b).
Proof.
  unfold Boom.move, Boom.moved.
  generalize (move_loop_spec (Boom.area b) (Boom.circles b) []).
  rewrite !app_nil_r. now intros ->.
Qed.

Lemma falling_outside (a : Area) (px py : R) :
  0 <= px <= width a -> height a < py + 1 ->
  Boom.outside a (Circle.move (falling px py)) = true.
Proof.
  intros Hx Hy. apply outside_spec. right; right.
  cbn. rewrite cos_0. lra.
Qed.

Lemma falling_inside (a : Area) (px py : R) :
  0 <= px <= width a -> py + 1 <= height a ->
  Boom.outside a (Circle.move (falling px py)) = false.
Proof.
  intros Hx Hy. destruct (Boom.outside _ _) eqn:E; [|reflexivity].
  apply outside_spec in E. unfold Boom.out_of_bounds in E. cbn in E.
  rewrite sin_0, cos_0 in E. lra.
Qed.

(** The loop run on three particles of which the two adjacent last ones
    leave: both are removed, the first stays. *)
Example move_example_trio :
  Boom.move example_trio
  = Some (Boom.mk (mkPoint 100 100) 3 (mkArea 800 600) false
                  [Circle.move (falling 100 100)]).
Proof.
  unfold Boom.move, example_trio.
  cbn [Boom.circles Boom.area Boom.origin Boom.circleCount List.length
       Boom.move_loop nth_error set_nth].
  rewrite (falling_outside (mkArea 800 600) 100 700) by (cbn; lra).
  cbn [splice1 firstn skipn app nth_error set_nth].
  rewrite (falling_outside (mkArea 800 600) 100 600) by (cbn; lra).
  cbn [splice1 firstn skipn app nth_error set_nth].
  rewrite (falling_inside (mkArea 800 600) 100 100) by (cbn; lra).
  reflexivity.
Qed.

(** C3: one call of [move()] succeeds; it leaves, in their order, the moved
    particles that are not out of bounds, where out of bounds means
    [position.x < 0], [position.x > area.width] or
    [position.y > area.height] after the move; afterwards [stop] is true
    exactly when [circles] is empty, which is exactly when every particle
    of the burst went out of the burst's own bounds. *)
Theorem C3_move_culls (b : Boom.t) :
  exists b' : Boom.t,
    Boom.move b = Some b'
    /\ Boom.circles b'
       = filter (fun c => negb (Boom.outside (Boom.area b) c))
                (map Circle.move (Boom.circles b))
    /\ (forall c : Circle.t,
           Boom.outside (Boom.area b) c = true
           <-> x (Circle.position c) < 0
               \/ x (Circle.position c) > width (Boom.area b)
               \/ y (Circle.position c) > height (Boom.area b))
    /\ Boom.area b' = Boom.area b
    /\ (Boom.stop b' = true <-> Boom.circles b' = [])
    /\ (Boom.stop b' = true
        <-> forall c : Circle.t,
              In c (Boom.circles b) ->
              Boom.out_of_bounds (Boom.area b)
                                 (Circle.position (Circle.move c))).
Proof.
  exists (Boom.moved b). split; [apply Boom_move_moved|].
  split; [reflexivity|]. split; [intros c; apply outside_spec|].
  split; [reflexivity|].
  assert (Hstop : Boom.stop (Boom.moved b) = true
                  <-> Boom.circles (Boom.moved b) = [])
    by apply length_zero_iff.
  split; [exact Hstop|]. rewrite Hstop. cbn [Boom.moved Boom.circles].
  unfold Boom.survivors. split.
  - intros Hnil c Hin. apply outside_spec.
    destruct (Boom.outside (Boom.area b) (Circle.move c)) eqn:E; [reflexivity|].
    assert (Hc : In (Circle.move c)
                    (filter (fun c => negb (Boom.outside (Boom.area b) c))
                            (map Circle.move (Boom.circles b)))).
    { apply filter_In. split; [now apply in_map | now rewrite E]. }
    rewrite Hnil in Hc. destruct Hc.
  - intros Hall.
    destruct (filter _ _) as [|c l] eqn:E; [reflexivity|].
    assert (Hc : In c (c :: l)) by now left.
    rewrite <- E in Hc. apply filter_In in Hc. destruct Hc as [Hin Hneg].
    apply in_map_iff in Hin. destruct Hin as (c0 & <- & Hin0).
    apply Hall, outside_spec in Hin0. rewrite Hin0 in Hneg. discriminate.
Qed.

(** ** The random helpers *)

Lemma bind_run {A B : Type} (m : Rand A) (k : A -> Rand B)
      (g g' : rng) (a : A) :
  m g = (a, g') -> bind m k g = k a g'.
Proof. unfold bind. now intros ->. Qed.

Lemma unit_draws_tail (g : rng) :
  unit_draws g -> unit_draws (snd (Math_random g)).
Proof. intros H i. apply H. Qed.

Lemma randomIndex_bounds (len : nat) (r : R) :
  (0 < len)%nat -> 0 <= r < 1 ->
  (0 <= Boom.randomIndex len r < Z.of_nat len)%Z.
Proof.
  intros Hlen Hr. unfold Boom.randomIndex.
  assert (Hpos : 0 < INR len) by now apply lt_0_INR.
  destruct (Zfloor_bound (INR len * r)) as [Hlo Hhi].
  split.
  - apply Zfloor_lub. nra.
  - apply lt_IZR. rewrite <- INR_IZR_INZ. nra.
Qed.

Lemma at_index_inside {A : Type} (l : list A) (i : Z) :
  (0 <= i < Z.of_nat (List.length l))%Z ->
  exists v : A,
    at_index l i = Some v /\ nth_error l (Z.to_nat i) = Some v /\ In v l.
Proof.
  intros Hi. unfold at_index.
  destruct (Z.ltb_spec i 0) as [Hneg|_]; [lia|].
  destruct (nth_error l (Z.to_nat i)) as [v|] eqn:E.
  - exists v. repeat split. now apply nth_error_In in E.
  - apply nth_error_None in E. lia.
Qed.

Lemma randomArray_inside {A : Type} (range : list A) (g : rng) :
  range <> [] -> 0 <= g O < 1 ->
  exists v : A, fst (Boom.randomArray range g) = Some v /\ In v range.
Proof.
  intros Hne Hr.
  assert (Hlen : (0 < List.length range)%nat)
    by (destruct range; [congruence | cbn; lia]).
  destruct (at_index_inside range _ (randomIndex_bounds _ _ Hlen Hr))
    as (v & Hv & _ & Hin).
  exists v. split; [exact Hv | exact Hin].
Qed.

Lemma map_times_palette (n : nat) (g : rng) :
  unit_draws g ->
  let r := map_times n (Boom.randomArray Boom.palette) g in
  List.length (fst r) = n /\ Forall Boom.palette_entry (fst r) /\ unit_draws (snd r).
Proof.
  revert g. induction n as [|n IH]; intros g Hg.
  - cbn. split; [reflexivity | split; [constructor | exact Hg]].
  - cbn [map_times].
    destruct (Boom.randomArray Boom.palette g) as [o g1] eqn:E1.
    assert (Ho : Boom.palette_entry o).
    { destruct (randomArray_inside Boom.palette g) as (v & Hv & Hin);
        [discriminate | apply Hg |].
      rewrite E1 in Hv. now exists v. }
    assert (Hg1 : unit_draws g1).
    { assert (g1 = snd (Math_random g)) as -> by (now inversion E1).
      now apply unit_draws_tail. }
    rewrite (bind_run _ _ _ _ _ E1).
    specialize (IH g1 Hg1). cbn zeta in IH.
    destruct (map_times n (Boom.randomArray Boom.palette) g1) as [l g2] eqn:E2.
    rewrite (bind_run _ _ _ _ _ E2).
    cbn [fst snd ret List.length] in *. destruct IH as (Hl & Hall & Hg2).
    split; [now rewrite Hl | split; [now constructor | exact Hg2]].
Qed.

Lemma join_palette (l : list (option string)) :
  Forall Boom.palette_entry l ->
  String.length (join l) = List.length l
  /\ forallb Boom.palette_char (list_ascii_of_string (join l)) = true.
Proof.
  induction 1 as [|o l (s & -> & Hin) _ [IHlen IHall]]; [now split|].
  cbn [join fold_right List.length]. fold (join l).
  cbn in Hin.
  repeat (destruct Hin as [<- | Hin]; [cbn; now rewrite IHlen, IHall|]).
  destruct Hin.
Qed.

Lemma randomColor_ok (g : rng) :
  unit_draws g ->
  Boom.color_ok (fst (Boom.randomColor g)) = true
  /\ unit_draws (snd (Boom.randomColor g)).
Proof.
  intros Hg. unfold Boom.randomColor, bind.
  destruct (map_times_palette 6 g Hg) as (Hlen & Hall & Hg').
  destruct (map_times 6 (Boom.randomArray Boom.palette) g) as [cs g'].
  cbn [fst snd ret] in *. split; [|exact Hg'].
  destruct (join_palette cs Hall) as [Hl Hc].
  cbn [Boom.color_ok append]. rewrite Hl, Hlen, Hc. reflexivity.
Qed.

Lemma randomRange_bounds (lo hi : R) (g : rng) :
  lo <= hi -> unit_draws g ->
  lo <= fst (Boom.randomRange lo hi g) <= hi
  /\ unit_draws (snd (Boom.randomRange lo hi g)).
Proof.
  intros Hle Hg. cbn. split; [|now apply unit_draws_tail].
  specialize (Hg O). nra.
Qed.

(** A draw of one half picks the entry at index 4 of the palette. *)
Example randomArray_half :
  fst (Boom.randomArray Boom.palette (fun _ => 0.5)) = Some "C"%string.
Proof.
  cbn [Boom.randomArray bind Math_random ret fst].
  assert (E : Boom.randomIndex (List.length Boom.palette) 0.5 = 4%Z).
  { unfold Boom.randomIndex. apply Zfloor_eq. cbn. lra. }
  rewrite E. reflexivity.
Qed.

(** C10: for a non-empty array and a draw [r] with [0 <= r < 1], the index
    [Math.floor(range.length * r)] lies in [0 .. range.length - 1], so
    [#randomArray] returns the entry of [range] at that index and never
    [undefined]; the six entries that [#randomColor] joins are therefore
    palette symbols. *)
Theorem C10_randomArray_in_range {A : Type} (range : list A) (g : rng) :
  range <> [] ->
  0 <= g O < 1 ->
  let i := Boom.randomIndex (List.length range) (g O) in
  (0 <= i <= Z.of_nat (List.length range) - 1)%Z
  /\ (exists v : A,
         fst (Boom.randomArray range g) = Some v
         /\ nth_error range (Z.to_nat i) = Some v
         /\ In v range)
  /\ fst (Boom.randomArray range g) <> None
  /\ (unit_draws g ->
      Forall Boom.palette_entry
             (fst (map_times 6 (Boom.randomArray Boom.palette) g))).
Proof.
  intros Hne Hr i.
  assert (Hlen : (0 < List.length range)%nat)
    by (destruct range; [congruence | cbn; lia]).
  assert (Hi := randomIndex_bounds _ _ Hlen Hr). fold i in Hi.
  destruct (at_index_inside range i Hi) as (v & Hv & Hn & Hin).
  split; [lia|]. split; [now exists v|].
  split; [cbn; fold i; now rewrite Hv|].
  intros Hg. apply (map_times_palette 6 g Hg).
Qed.

Lemma C10_randomArray_in_range_witness :
  Boom.palette <> []
  /\ 0 <= (fun _ : nat => 0) O < 1
  /\ fst (Boom.randomArray Boom.palette (fun _ : nat => 0)) <> None.
Proof.
  assert (Hne : Boom.palette <> []) by discriminate.
  assert (Hr : 0 <= (fun _ : nat => 0) O < 1) by lra.
  split; [exact Hne|]. split; [exact Hr|].
  exact (proj1 (proj2 (proj2
           (C10_randomArray_in_range Boom.palette (fun _ : nat => 0) Hne Hr)))).
Defined.

(** ** Boom.init *)

Lemma color_ok_spec (s : string) :
  Boom.color_ok s = true ->
  exists rest : string,
    s = String "#" rest
    /\ String.length rest = 6%nat
    /\ forall ch : ascii,
         In ch (list_ascii_of_string rest) -> In ch Boom.palette_chars.
Proof.
  unfold Boom.color_ok. destruct s as [|c rest]; [discriminate|].
  destruct (Ascii.eqb_spec c "#") as [->|Hne].
  - intros H. apply andb_true_iff in H. destruct H as [Hlen Hall].
    exists rest. split; [reflexivity|]. split; [now apply Nat.eqb_eq|].
    intros ch Hin. rewrite forallb_forall in Hall. specialize (Hall ch Hin).
    unfold Boom.palette_char in Hall. apply existsb_exists in Hall.
    destruct Hall as (p & Hp & Heq). apply String.eqb_eq in Heq. subst p.
    cbn in Hp. cbn.
    repeat (destruct Hp as [Hp|Hp];
            [injection Hp as <-; tauto|]).
    destruct Hp.
  - intros H. exfalso. apply Hne.
    destruct c as [[] [] [] [] [] [] [] []]; try discriminate H. reflexivity.
Qed.

Lemma init_loop_spec (n : nat) (b : Boom.t) (g : rng) :
  exists news : list Circle.t,
    Boom.circles (fst (Boom.init_loop n b g)) = Boom.circles b ++ news
    /\ List.length news = n
    /\ Boom.origin (fst (Boom.init_loop n b g)) = Boom.origin b
    /\ Boom.area (fst (Boom.init_loop n b g)) = Boom.area b
    /\ Boom.stop (fst (Boom.init_loop n b g)) = Boom.stop b
    /\ (unit_draws g ->
        Forall (Boom.fresh_particle (Boom.origin b)) news
        /\ unit_draws (snd (Boom.init_loop n b g))).
Proof.
  revert b g. induction n as [|n IH]; intros b g.
  - exists []. cbn. rewrite app_nil_r. repeat split; trivial; apply H.
  - cbn [Boom.init_loop].
    destruct (Boom.randomColor g) as [col g1] eqn:E1.
    rewrite (bind_run _ _ _ _ _ E1).
    destruct (Boom.randomRange (PI - 1) (PI + 1) g1) as [a g2] eqn:E2.
    rewrite (bind_run _ _ _ _ _ E2).
    destruct (Boom.randomRange 1 6 g2) as [s g3] eqn:E3.
    rewrite (bind_run _ _ _ _ _ E3).
    set (c := Circle.new (Boom.origin b) s col a).
    destruct (IH (Boom.push b c) g3) as (news & Hc & Hl & Ho & Ha & Hs & Hg).
    exists (c :: news). cbn [Boom.push Boom.circles Boom.origin] in Hc, Hg.
    rewrite Hc, <- app_assoc, Ho, Ha, Hs. cbn [List.length app].
    split; [reflexivity|]. split; [now rewrite Hl|].
    do 3 (split; [reflexivity|]).
    intros Hg0.
    destruct (randomColor_ok g Hg0) as [Hcol Hg1]. rewrite E1 in Hcol, Hg1.
    destruct (randomRange_bounds (PI - 1) (PI + 1) g1) as [Hang Hg2];
      [lra | exact Hg1 |]. rewrite E2 in Hang, Hg2.
    destruct (randomRange_bounds 1 6 g2) as [Hsp Hg3];
      [lra | exact Hg2 |]. rewrite E3 in Hsp, Hg3.
    cbn [fst snd] in *. destruct (Hg Hg3) as [Hall Hg4].
    split; [|exact Hg4]. constructor; [|exact Hall].
    unfold Boom.fresh_particle, c. cbn. tauto.
Qed.

(** C4: right after the constructor and [init()], for any particle count
    [k] (0 included) and any draws, [circles] has exactly [k] entries and
    [stop] is false; without a count there are 10. *)
Theorem C4_init_count (o : Point) (a : Area) (k : nat) (g : rng) :
  List.length (Boom.circles (fst (Boom.init (Boom.new o (Some k) a) g))) = k
  /\ Boom.stop (fst (Boom.init (Boom.new o (Some k) a) g)) = false
  /\ List.length (Boom.circles (fst (Boom.init (Boom.new o None a) g)))
     = 10%nat
  /\ Boom.stop (fst (Boom.init (Boom.new o None a) g)) = false.
Proof.
  unfold Boom.init.
  destruct (init_loop_spec k (Boom.new o (Some k) a) g)
    as (news & Hc & Hl & _ & _ & Hs & _).
  destruct (init_loop_spec 10 (Boom.new o None a) g)
    as (news' & Hc' & Hl' & _ & _ & Hs' & _).
  cbn [Boom.new Boom.circleCount Boom.circles Boom.stop app] in *.
  rewrite Hc, Hc', Hl, Hl', Hs, Hs'. repeat split.
Qed.

(** C8: when every draw lies in [[0, 1)], each of the [circleCount]
    particles that [init()] creates (10 by default) has the burst's origin
    as its origin, an angle in [[PI - 1, PI + 1]], a speed in [[1, 6]] and a
    colour made of the marker ["#"] and exactly six characters, each one of
    8 9 A B C D E F. *)
Theorem C8_init_particles (o : Point) (a : Area) (k : option nat) (g : rng) :
  unit_draws g ->
  let b := fst (Boom.init (Boom.new o k a) g) in
  List.length (Boom.circles b)
  = match k with Some n => n | None => 10%nat end
  /\ Boom.origin b = o
  /\ Forall
       (fun c : Circle.t =>
          Circle.origin c = o
          /\ PI - 1 <= Circle.angle c <= PI + 1
          /\ 1 <= Circle.speed c <= 6
          /\ exists rest : string,
               Circle.color c = String "#" rest
               /\ String.length rest = 6%nat
               /\ forall ch : ascii,
                    In ch (list_ascii_of_string rest) ->
                    In ch Boom.palette_chars)
       (Boom.circles b).
Proof.
  intros Hg b. subst b. unfold Boom.init.
  destruct (init_loop_spec (Boom.circleCount (Boom.new o k a))
                           (Boom.new o k a) g)
    as (news & Hc & Hl & Ho & _ & _ & Hfresh).
  destruct (Hfresh Hg) as [Hall _].
  cbn [Boom.new Boom.circleCount Boom.circles Boom.origin app] in *.
  rewrite Hc, Hl, Ho. split; [reflexivity|]. split; [reflexivity|].
  eapply Forall_impl; [|exact Hall].
  intros c (H1 & _ & _ & H2 & H3 & H4).
  repeat split; try tauto. now apply color_ok_spec.
Qed.

Lemma C8_init_particles_witness :
  unit_draws (fun _ : nat => 0)
  /\ List.length
       (Boom.circles
          (fst (Boom.init (Boom.new (mkPoint 100 100) None (mkArea 800 600))
                          (fun _ : nat => 0))))
     = 10%nat.
Proof.
  assert (Hg : unit_draws (fun _ : nat => 0)) by (intros i; lra).
  split; [exact Hg|].
  exact (proj1 (C8_init_particles (mkPoint 100 100) (mkArea 800 600) None
                                  (fun _ : nat => 0) Hg)).
Defined.

(** ** Successive moves of a burst *)

Lemma Boom_moves_iter (n : nat) (b : Boom.t) :
  Boom.moves n b = Some (Nat.iter n Boom.moved b).
Proof.
  revert b. induction n as [|n IH]; intros b; [reflexivity|].
  cbn [Boom.moves]. now rewrite Boom_move_moved, IH, Nat.iter_succ_r.
Qed.

Lemma survivors_length (a : Area) (cs : list Circle.t) :
  (List.length (Boom.survivors a cs) <= List.length cs)%nat.
Proof.
  unfold Boom.survivors.
  rewrite <- (length_map Circle.move cs). apply filter_length_le.
Qed.

Lemma moved_exhausted (b : Boom.t) :
  Boom.stop b = true -> Boom.circles b = [] -> Boom.moved b = b.
Proof. destruct b as [o k a st cs]. cbn. now intros -> ->. Qed.

Lemma moved_stop (b : Boom.t) :
  Boom.stop (Boom.moved b) = true <-> Boom.circles (Boom.moved b) = [].
Proof. apply length_zero_iff. Qed.

(** C9: one call of [move()] never makes [circles] longer, in any state of
    the burst; in particular the count after [n + 1] calls is at most the
    count after [n] calls. *)
Theorem C9_count_non_increasing (b : Boom.t) :
  (exists b' : Boom.t,
      Boom.move b = Some b'
      /\ (List.length (Boom.circles b') <= List.length (Boom.circles b))%nat)
  /\ (forall n : nat,
         exists bn bn' : Boom.t,
           Boom.moves n b = Some bn
           /\ Boom.moves (S n) b = Some bn'
           /\ (List.length (Boom.circles bn')
               <= List.length (Boom.circles bn))%nat).
Proof.
  split.
  - exists (Boom.moved b). split; [apply Boom_move_moved|].
    apply survivors_length.
  - intros n. exists (Nat.iter n Boom.moved b), (Nat.iter (S n) Boom.moved b).
    rewrite !Boom_moves_iter. repeat split. apply survivors_length.
Qed.

(** C5: a burst built by the constructor and one [init()] is not exhausted
    before its first [move()], whatever its particles; and if [stop] is
    true after some number of calls of [move()], it is true after any
    further calls. *)
Theorem C5_stop_permanent (o : Point) (a : Area) (k : option nat) (g : rng) :
  Boom.stop (fst (Boom.init (Boom.new o k a) g)) = false
  /\ forall (n : nat) (bn : Boom.t),
       Boom.moves n (fst (Boom.init (Boom.new o k a) g)) = Some bn ->
       Boom.stop bn = true ->
       forall m : nat,
         exists bm : Boom.t, Boom.moves m bn = Some bm /\ Boom.stop bm = true.
Proof.
  assert (H0 : Boom.stop (fst (Boom.init (Boom.new o k a) g)) = false).
  { destruct (init_loop_spec (Boom.circleCount (Boom.new o k a))
                             (Boom.new o k a) g) as (_ & _ & _ & _ & _ & Hs & _).
    exact Hs. }
  split; [exact H0|]. intros n bn Hn Hstop.
  rewrite Boom_moves_iter in Hn. injection Hn as <-.
  destruct n as [|n]; [cbn [Nat.iter nat_rect] in Hstop; congruence|].
  rewrite Nat.iter_succ in Hstop |- *.
  set (b := Boom.moved
              (Nat.iter n Boom.moved (fst (Boom.init (Boom.new o k a) g)))) in *.
  assert (Hnil : Boom.circles b = []) by now apply moved_stop.
  intros m. exists b. split; [|exact Hstop].
  rewrite Boom_moves_iter. f_equal.
  induction m as [|m IH]; [reflexivity|].
  rewrite Nat.iter_succ, IH. now apply moved_exhausted.
Qed.

(** ** Every particle leaves *)

Lemma sum_below_closed (n : nat) : 2 * sum_below n = INR n * (INR n - 1).
Proof.
  induction n as [|n IH]; [cbn; lra|].
  cbn [sum_below]. rewrite S_INR. lra.
Qed.

(** The [renderCount * 0.3] term outgrows any height. *)
Lemma particle_leaves (a : Area) (c : Circle.t) :
  exists n : nat,
    (1 <= n)%nat /\ y (Circle.position (Circle.moves n c)) > height a.
Proof.
  set (v := cos (Circle.angle c) * Circle.speed c).
  set (B := Rmax 0 (- v)).
  set (D := Rmax 0 (height a - y (Circle.position c))).
  assert (HB0 : 0 <= B) by apply Rmax_l.
  assert (HBv : - v <= B) by apply Rmax_r.
  assert (HD0 : 0 <= D) by apply Rmax_l.
  assert (HDh : height a - y (Circle.position c) <= D) by apply Rmax_r.
  destruct (INR_unbounded (1 + (B + D + 1) / 0.15)) as [n Hn].
  assert (Hq : 0 <= (B + D + 1) / 0.15)
    by (apply Rmult_le_pos; [lra | apply Rlt_le, Rinv_0_lt_compat; lra]).
  assert (Ht1 : 1 < INR n) by lra.
  exists n. split.
  - destruct n as [|n]; [cbn in Ht1; lra | lia].
  - destruct (Circle_moves_position n c) as [_ Hy]. rewrite Hy. fold v.
    assert (Hk : 0 <= INR (Circle.renderCount c)) by apply pos_INR.
    assert (Hs := sum_below_closed n).
    assert (Hm : 0.15 * (INR n - 1) > B + D + 1).
    { assert (E : (B + D + 1) / 0.15 * 0.15 = B + D + 1) by (field; lra).
      nra. }
    nra.
Qed.

(** The particles of a burst after [n] moves. *)
Lemma moved_iter_circles (n : nat) (b : Boom.t) :
  Boom.circles (Nat.iter n Boom.moved b)
  = Nat.iter n (Boom.survivors (Boom.area b)) (Boom.circles b)
  /\ Boom.area (Nat.iter n Boom.moved b) = Boom.area b.
Proof.
  induction n as [|n [IHc IHa]]; [now split|].
  rewrite !Nat.iter_succ. cbn [Boom.moved Boom.circles Boom.area].
  now rewrite IHc, IHa.
Qed.

Lemma survivors_app (a : Area) (l1 l2 : list Circle.t) :
  Boom.survivors a (l1 ++ l2) = Boom.survivors a l1 ++ Boom.survivors a l2.
Proof. unfold Boom.survivors. now rewrite map_app, filter_app. Qed.

Lemma survivors_iter_app (a : Area) (n : nat) (l1 l2 : list Circle.t) :
  Nat.iter n (Boom.survivors a) (l1 ++ l2)
  = Nat.iter n (Boom.survivors a) l1 ++ Nat.iter n (Boom.survivors a) l2.
Proof.
  induction n as [|n IH]; [reflexivity|].
  now rewrite !Nat.iter_succ, IH, survivors_app.
Qed.

Lemma survivors_iter_nil (a : Area) (n : nat) :
  Nat.iter n (Boom.survivors a) [] = [].
Proof. induction n as [|n IH]; [reflexivity|]. now rewrite Nat.iter_succ, IH. Qed.

(** A lone particle is either gone, or it has moved [n] times and was
    inside the area after the last move. *)
Lemma survivors_iter_single (a : Area) (n : nat) (c : Circle.t) :
  Nat.iter n (Boom.survivors a) [c] = []
  \/ (Nat.iter n (Boom.survivors a) [c] = [Circle.moves n c]
      /\ ((1 <= n)%nat -> Boom.outside a (Circle.moves n c) = false)).
Proof.
  induction n as [|n [IH | [IH _]]].
  - right. split; [reflexivity | lia].
  - left. now rewrite Nat.iter_succ, IH.
  - rewrite Nat.iter_succ, IH. unfold Boom.survivors. cbn [map filter].
    rewrite <- Circle_moves_S.
    destruct (Boom.outside a (Circle.moves (S n) c)) eqn:E; cbn [negb].
    + now left.
    + right. now split.
Qed.

Lemma survivors_iter_more (a : Area) (n m : nat) (l : list Circle.t) :
  Nat.iter n (Boom.survivors a) l = [] ->
  Nat.iter (m + n) (Boom.survivors a) l = [].
Proof. intros H. now rewrite Nat.iter_add, H, survivors_iter_nil. Qed.

Lemma particles_all_leave (a : Area) (l : list Circle.t) :
  exists T : nat, Nat.iter T (Boom.survivors a) l = [].
Proof.
  induction l as [|c l [T IH]]; [now exists O|].
  destruct (particle_leaves a c) as (n & Hn1 & Hy).
  assert (Hc : Nat.iter n (Boom.survivors a) [c] = []).
  { destruct (survivors_iter_single a n c) as [H | [_ H]]; [exact H|].
    specialize (H Hn1).
    assert (Ho : Boom.outside a (Circle.moves n c) = true)
      by (apply outside_spec; right; right; exact Hy).
    congruence. }
  exists (T + n)%nat. change (c :: l) with ([c] ++ l).
  rewrite survivors_iter_app, (survivors_iter_more a n T [c] Hc).
  rewrite Nat.add_comm. now rewrite (survivors_iter_more a T n l IH).
Qed.

(** After enough moves a burst is empty and says so. *)
Lemma Boom_exhausts (b : Boom.t) :
  exists T : nat,
    Boom.circles (Nat.iter T Boom.moved b) = []
    /\ Boom.stop (Nat.iter T Boom.moved b) = true.
Proof.
  destruct (particles_all_leave (Boom.area b) (Boom.circles b)) as [T HT].
  exists (S T).
  assert (Hnil : Boom.circles (Nat.iter (S T) Boom.moved b) = []).
  { rewrite (proj1 (moved_iter_circles (S T) b)).
    now apply (survivors_iter_more _ T 1). }
  split; [exact Hnil|].
  rewrite Nat.iter_succ in Hnil |- *. now apply moved_stop.
Qed.

Lemma example_burst_length : List.length (Boom.circles example_burst) = 10%nat.
Proof.
  unfold example_burst, Boom.init.
  destruct (init_loop_spec 10 (Boom.new (mkPoint 100 100) None (mkArea 800 600))
                           (fun _ => 0))
    as (news & Hc & Hl & _).
  cbn [Boom.new Boom.circleCount Boom.circles app] in *.
  now rewrite Hc, Hl.
Qed.

Lemma C5_stop_permanent_witness :
  List.length (Boom.circles example_burst) = 10%nat
  /\ Boom.stop example_burst = false
  /\ exists (n : nat) (bn : Boom.t),
       Boom.moves n example_burst = Some bn
       /\ Boom.stop bn = true
       /\ forall m : nat,
            exists bm : Boom.t, Boom.moves m bn = Some bm /\ Boom.stop bm = true.
Proof.
  split; [exact example_burst_length|].
  split; [exact (proj1 (C5_stop_permanent (mkPoint 100 100) (mkArea 800 600)
                                          None (fun _ => 0)))|].
  destruct (Boom_exhausts example_burst) as (T & _ & Hstop).
  exists T, (Nat.iter T Boom.moved example_burst).
  split; [apply Boom_moves_iter|]. split; [exact Hstop|].
  exact (proj2 (C5_stop_permanent (mkPoint 100 100) (mkArea 800 600)
                                  None (fun _ => 0))
               T (Nat.iter T Boom.moved example_burst)
               (Boom_moves_iter T example_burst) Hstop).
Defined.

(** ** CursorSpecialEffects.run: the loop is a filter *)

Lemma frame_booms_snoc (pre : list Boom.t) (b : Boom.t) :
  CursorSpecialEffects.frame_booms (pre ++ [b])
  = CursorSpecialEffects.frame_booms pre
    ++ (if Boom.stop b then [] else [Boom.moved b]).
Proof.
  unfold CursorSpecialEffects.frame_booms.
  rewrite flat_map_app. cbn. now rewrite app_nil_r.
Qed.

Lemma run_loop_spec (pre post : list Boom.t) :
  CursorSpecialEffects.run_loop (List.length pre) (pre ++ post)
  = Some (CursorSpecialEffects.frame_booms pre ++ post).
Proof.
  revert post. induction pre as [|b pre IH] using rev_ind; intros post.
  - reflexivity.
  - rewrite length_app, Nat.add_comm.
    cbn [List.length Nat.add CursorSpecialEffects.run_loop].
    rewrite <- app_assoc. cbn [app].
    rewrite nth_error_middle, frame_booms_snoc.
    destruct (Boom.stop b).
    + now rewrite splice1_middle, IH, app_nil_r.
    + now rewrite Boom_move_moved, set_nth_middle, IH, <- app_assoc.
Qed.

Lemma run_ran (s : CursorSpecialEffects.World) :
  CursorSpecialEffects.run s = Some (CursorSpecialEffects.ran s).
Proof.
  unfold CursorSpecialEffects.run, CursorSpecialEffects.ran.
  destruct s as [c w].
  cbn [CursorSpecialEffects.this CursorSpecialEffects.win
       CursorSpecialEffects.set_running CursorSpecialEffects.booms
       CursorSpecialEffects.set_animationId requestAnimationFrame fst snd].
  destruct (CursorSpecialEffects.booms c) as [|b bs] eqn:E; [reflexivity|].
  cbn [List.length Nat.eqb].
  generalize (run_loop_spec (b :: bs) []). rewrite !app_nil_r.
  cbn [List.length]. now intros ->.
Qed.

(** ** The controller between its two states *)

Ltac world s :=
  destruct s as [[?cc ?rc ?gw ?gh ?bs ?rn ?aid] [?iw ?ih ?fr ?last ?g]].

Lemma frame_of_running (s : CursorSpecialEffects.World) :
  CursorSpecialEffects.Running s ->
  CursorSpecialEffects.animationFrame s
  = Some (CursorSpecialEffects.ran (CursorSpecialEffects.fired [] s)).
Proof.
  intros (_ & id & _ & Hfr & _). unfold CursorSpecialEffects.animationFrame.
  rewrite Hfr. apply run_ran.
Qed.

Lemma ran_nonempty (s : CursorSpecialEffects.World) :
  CursorSpecialEffects.booms (CursorSpecialEffects.this s) <> [] ->
  frames (CursorSpecialEffects.win s) = [] ->
  CursorSpecialEffects.Running (CursorSpecialEffects.ran s)
  /\ CursorSpecialEffects.booms
       (CursorSpecialEffects.this (CursorSpecialEffects.ran s))
     = CursorSpecialEffects.frame_booms
         (CursorSpecialEffects.booms (CursorSpecialEffects.this s))
  /\ frames (CursorSpecialEffects.win (CursorSpecialEffects.ran s))
     = [S (lastHandle (CursorSpecialEffects.win s))].
Proof.
  world s. cbn. intros Hne ->. unfold CursorSpecialEffects.ran. cbn.
  destruct bs as [|b bs]; [congruence|]. cbn -[CursorSpecialEffects.frame_booms].
  repeat split. exists (S last). repeat split. discriminate.
Qed.

Lemma ran_empty (s : CursorSpecialEffects.World) :
  CursorSpecialEffects.booms (CursorSpecialEffects.this s) = [] ->
  frames (CursorSpecialEffects.win s) = [] ->
  CursorSpecialEffects.animationId (CursorSpecialEffects.this s) <> Some O ->
  CursorSpecialEffects.Idle (CursorSpecialEffects.ran s).
Proof.
  world s. cbn. intros -> -> Hid.
  unfold CursorSpecialEffects.ran, CursorSpecialEffects.stopAnimation. cbn.
  destruct aid as [[|id]|]; [congruence | |]; cbn; repeat split.
Qed.

(** A running controller with no burst left stops at the next frame. *)
Lemma frame_empty (s : CursorSpecialEffects.World) :
  CursorSpecialEffects.Running s ->
  CursorSpecialEffects.booms (CursorSpecialEffects.this s) = [] ->
  exists s' : CursorSpecialEffects.World,
    CursorSpecialEffects.animationFrame s = Some s'
    /\ CursorSpecialEffects.Idle s'.
Proof.
  intros HR Hb. exists (CursorSpecialEffects.ran (CursorSpecialEffects.fired [] s)).
  split; [now apply frame_of_running|].
  destruct HR as (_ & id & Hid & _ & Haid).
  apply ran_empty; cbn; try assumption; [reflexivity|].
  rewrite Haid. congruence.
Qed.

(** A running controller with bursts stays running for one more frame. *)
Lemma frame_nonempty (s : CursorSpecialEffects.World) :
  CursorSpecialEffects.Running s ->
  CursorSpecialEffects.booms (CursorSpecialEffects.this s) <> [] ->
  exists s' : CursorSpecialEffects.World,
    CursorSpecialEffects.animationFrame s = Some s'
    /\ CursorSpecialEffects.Running s'
    /\ CursorSpecialEffects.booms (CursorSpecialEffects.this s')
       = CursorSpecialEffects.frame_booms
           (CursorSpecialEffects.booms (CursorSpecialEffects.this s)).
Proof.
  intros HR Hb. exists (CursorSpecialEffects.ran (CursorSpecialEffects.fired [] s)).
  split; [now apply frame_of_running|].
  destruct (ran_nonempty (CursorSpecialEffects.fired [] s)) as (H1 & H2 & _);
    [exact Hb | reflexivity |].
  split; [exact H1 | exact H2].
Qed.

(** The only burst has stopped: one frame drops it, the next one stops the
    loop. *)
Lemma frames_when_stopped (s : CursorSpecialEffects.World) (b : Boom.t) :
  CursorSpecialEffects.Running s ->
  CursorSpecialEffects.booms (CursorSpecialEffects.this s) = [b] ->
  Boom.stop b = true ->
  exists s' : CursorSpecialEffects.World,
    CursorSpecialEffects.animationFrames 2 s = Some s'
    /\ CursorSpecialEffects.Idle s'.
Proof.
  intros HR Hb Hstop.
  destruct (frame_nonempty s HR) as (s1 & Hf1 & HR1 & Hb1);
    [rewrite Hb; discriminate|].
  rewrite Hb in Hb1. cbn -[Boom.moved] in Hb1. rewrite Hstop in Hb1.
  destruct (frame_empty s1 HR1 Hb1) as (s2 & Hf2 & HI).
  exists s2. cbn. now rewrite Hf1, Hf2.
Qed.

Lemma frames_to_idle (T : nat) :
  forall (s : CursorSpecialEffects.World) (b : Boom.t),
    CursorSpecialEffects.Running s ->
    CursorSpecialEffects.booms (CursorSpecialEffects.this s) = [b] ->
    Boom.stop (Nat.iter T Boom.moved b) = true ->
    exists (N : nat) (s' : CursorSpecialEffects.World),
      CursorSpecialEffects.animationFrames N s = Some s'
      /\ CursorSpecialEffects.Idle s'.
Proof.
  induction T as [|T IH]; intros s b HR Hb Hstop.
  - destruct (frames_when_stopped s b HR Hb Hstop) as (s' & H).
    now exists 2%nat, s'.
  - destruct (Boom.stop b) eqn:E.
    + destruct (frames_when_stopped s b HR Hb E) as (s' & H).
      now exists 2%nat, s'.
    + destruct (frame_nonempty s HR) as (s1 & Hf1 & HR1 & Hb1);
        [rewrite Hb; discriminate|].
      rewrite Hb in Hb1. cbn -[Boom.moved] in Hb1. rewrite E in Hb1.
      rewrite Nat.iter_succ_r in Hstop.
      destruct (IH s1 (Boom.moved b) HR1 Hb1 Hstop) as (N & s' & HN & HI).
      exists (S N), s'. cbn. now rewrite Hf1.
Qed.

(** C2: for a burst whose particles have speeds in [[1, 6]] and any angles,
    each particle's [y] exceeds [area.height] after finitely many moves,
    so some number [T] of calls of [move()] leaves the burst without
    particles and with [stop] set; a running controller whose only burst
    this is reaches the idle state (nothing scheduled, not running, no
    burst) after finitely many animation frames and no other event, and
    after two frames when the burst had already stopped. *)
Theorem C2_burst_ends (s : CursorSpecialEffects.World) (b : Boom.t) :
  Forall (fun c : Circle.t => 1 <= Circle.speed c <= 6) (Boom.circles b) ->
  CursorSpecialEffects.Running s ->
  CursorSpecialEffects.booms (CursorSpecialEffects.this s) = [b] ->
  (forall c : Circle.t,
      In c (Boom.circles b) ->
      exists n : nat,
        y (Circle.position (Circle.moves n c)) > height (Boom.area b))
  /\ (exists (T : nat) (b' : Boom.t),
         Boom.moves T b = Some b'
         /\ Boom.circles b' = []
         /\ Boom.stop b' = true)
  /\ (exists (N : nat) (s' : CursorSpecialEffects.World),
         CursorSpecialEffects.animationFrames N s = Some s'
         /\ CursorSpecialEffects.Idle s')
  /\ (Boom.stop b = true ->
      exists s' : CursorSpecialEffects.World,
        CursorSpecialEffects.animationFrames 2 s = Some s'
        /\ CursorSpecialEffects.Idle s').
Proof.
  intros _ HR Hb.
  destruct (Boom_exhausts b) as (T & Hnil & Hstop).
  split.
  { intros c _. destruct (particle_leaves (Boom.area b) c) as (n & _ & Hn).
    now exists n. }
  split.
  { exists T, (Nat.iter T Boom.moved b). now rewrite Boom_moves_iter. }
  split.
  { now apply (frames_to_idle T s b). }
  intros E. now apply (frames_when_stopped s b).
Qed.

Lemma C2_burst_ends_witness :
  Forall (fun c : Circle.t => 1 <= Circle.speed c <= 6)
         (Boom.circles example_boom)
  /\ CursorSpecialEffects.Running example_world
  /\ CursorSpecialEffects.booms (CursorSpecialEffects.this example_world)
     = [example_boom]
  /\ exists (N : nat) (s' : CursorSpecialEffects.World),
       CursorSpecialEffects.animationFrames N example_world = Some s'
       /\ CursorSpecialEffects.Idle s'.
Proof.
  assert (H1 : Forall (fun c : Circle.t => 1 <= Circle.speed c <= 6)
                      (Boom.circles example_boom))
    by (repeat constructor; cbn; lra).
  assert (H2 : CursorSpecialEffects.Running example_world)
    by (split; [reflexivity | exists 1%nat; repeat split; discriminate]).
  assert (H3 : CursorSpecialEffects.booms (CursorSpecialEffects.this example_world)
               = [example_boom]) by reflexivity.
  split; [exact H1|]. split; [exact H2|]. split; [exact H3|].
  exact (proj1 (proj2 (proj2 (C2_burst_ends example_world example_boom H1 H2 H3)))).
Defined.

(** ** Events *)

Lemma Boom_moved_area (b : Boom.t) : Boom.area (Boom.moved b) = Boom.area b.
Proof. reflexivity. Qed.

Lemma pressed_booms (cx cy : R) (s : CursorSpecialEffects.World) :
  CursorSpecialEffects.booms
    (CursorSpecialEffects.this (CursorSpecialEffects.pressed cx cy s))
  = CursorSpecialEffects.booms (CursorSpecialEffects.this s)
    ++ [CursorSpecialEffects.new_boom cx cy s].
Proof. reflexivity. Qed.

Lemma pressed_booms_nonempty (cx cy : R) (s : CursorSpecialEffects.World) :
  CursorSpecialEffects.booms
    (CursorSpecialEffects.this (CursorSpecialEffects.pressed cx cy s))
  <> [].
Proof.
  rewrite pressed_booms. intros E. apply app_eq_nil in E.
  destruct E as [_ E]. discriminate E.
Qed.

Lemma handleMouseDown_eq (cx cy : R) (s : CursorSpecialEffects.World) :
  CursorSpecialEffects.handleMouseDown cx cy s
  = Some (if CursorSpecialEffects.running (CursorSpecialEffects.this s)
          then CursorSpecialEffects.pressed cx cy s
          else CursorSpecialEffects.ran (CursorSpecialEffects.pressed cx cy s)).
Proof.
  unfold CursorSpecialEffects.handleMouseDown, CursorSpecialEffects.pressed,
    CursorSpecialEffects.new_boom.
  destruct (Boom.init _ _) as [boom g']. cbn [fst snd].
  cbn [CursorSpecialEffects.this CursorSpecialEffects.set_booms
       CursorSpecialEffects.running].
  destruct (CursorSpecialEffects.running (CursorSpecialEffects.this s));
    cbn [negb]; [reflexivity | apply run_ran].
Qed.

Lemma ran_booms (s : CursorSpecialEffects.World) :
  CursorSpecialEffects.booms (CursorSpecialEffects.this (CursorSpecialEffects.ran s))
  = CursorSpecialEffects.frame_booms
      (CursorSpecialEffects.booms (CursorSpecialEffects.this s)).
Proof.
  world s. unfold CursorSpecialEffects.ran, CursorSpecialEffects.stopAnimation.
  cbn -[CursorSpecialEffects.frame_booms].
  destruct bs as [|b bs]; [|reflexivity].
  now destruct aid as [[|id]|].
Qed.

Lemma pageHide_Idle (s : CursorSpecialEffects.World) :
  CursorSpecialEffects.Idle s \/ CursorSpecialEffects.Running s ->
  CursorSpecialEffects.Idle (CursorSpecialEffects.handlePageHide s).
Proof.
  world s. unfold CursorSpecialEffects.Idle, CursorSpecialEffects.Running.
  cbn. intros [(-> & -> & -> & ->) | (-> & id & Hid & -> & ->)].
  - cbn. repeat split.
  - unfold CursorSpecialEffects.handlePageHide, CursorSpecialEffects.stopAnimation.
    destruct id as [|id]; [congruence|]. cbn.
    rewrite Nat.eqb_refl. cbn. repeat split.
Qed.

(** Every state the program reaches is one of the two states of the
    specification. *)
Lemma reachable_states (s : CursorSpecialEffects.World) :
  CursorSpecialEffects.reachable s ->
  CursorSpecialEffects.Idle s \/ CursorSpecialEffects.Running s.
Proof.
  induction 1 as [iw ih last g | e s s' _ IH Hstep].
  - left. cbn. repeat split.
  - destruct e as [cx cy | | iw ih |];
      cbn [CursorSpecialEffects.dispatch] in Hstep.
    + rewrite handleMouseDown_eq in Hstep. injection Hstep as <-.
      right. destruct IH as [HI | HR].
      * destruct HI as (Hrun & _ & Hfr & _). rewrite Hrun.
        apply ran_nonempty; [apply pressed_booms_nonempty | exact Hfr].
      * destruct HR as [Hrun HR]. rewrite Hrun. now split.
    + injection Hstep as <-. left. now apply pageHide_Idle.
    + injection Hstep as <-. exact IH.
    + destruct IH as [HI | HR].
      * destruct HI as (Hrun & Haid & Hfr & Hb).
        unfold CursorSpecialEffects.animationFrame in Hstep.
        rewrite Hfr in Hstep. injection Hstep as <-. left. now repeat split.
      * destruct (CursorSpecialEffects.booms (CursorSpecialEffects.this s))
          as [|b bs] eqn:Eb.
        -- destruct (frame_empty s HR Eb) as (s1 & Hf & HI).
           rewrite Hstep in Hf. injection Hf as ->. now left.
        -- destruct (frame_nonempty s HR) as (s1 & Hf & HR1 & _);
             [rewrite Eb; discriminate|].
           rewrite Hstep in Hf. injection Hf as ->. now right.
Qed.

Lemma example_pressed_reachable : CursorSpecialEffects.reachable example_pressed.
Proof.
  apply (CursorSpecialEffects.reach_step
           (CursorSpecialEffects.MouseDown 100 100) example_boot).
  - apply CursorSpecialEffects.reach_boot.
  - cbn [CursorSpecialEffects.dispatch]. now rewrite handleMouseDown_eq.
Qed.

Lemma example_pressed_running : CursorSpecialEffects.Running example_pressed.
Proof.
  apply (ran_nonempty (CursorSpecialEffects.pressed 100 100 example_boot)).
  - apply pressed_booms_nonempty.
  - reflexivity.
Qed.

(** C6: in every reachable state at most one animation-frame callback is
    registered, and none when the controller is not running; a mouse-down
    while running appends the new burst and leaves the registered callback,
    the handle and the handle counter as they were; a mouse-down while not
    running registers exactly one callback. *)
Theorem C6_single_registration (s : CursorSpecialEffects.World) :
  CursorSpecialEffects.reachable s ->
  (List.length (frames (CursorSpecialEffects.win s)) <= 1)%nat
  /\ (CursorSpecialEffects.running (CursorSpecialEffects.this s) = false ->
      frames (CursorSpecialEffects.win s) = [])
  /\ forall cx cy : R,
       exists s' : CursorSpecialEffects.World,
         CursorSpecialEffects.handleMouseDown cx cy s = Some s'
         /\ (List.length (frames (CursorSpecialEffects.win s')) <= 1)%nat
         /\ (CursorSpecialEffects.running (CursorSpecialEffects.this s) = true ->
             CursorSpecialEffects.booms (CursorSpecialEffects.this s')
             = CursorSpecialEffects.booms (CursorSpecialEffects.this s)
               ++ [CursorSpecialEffects.new_boom cx cy s]
             /\ frames (CursorSpecialEffects.win s')
                = frames (CursorSpecialEffects.win s)
             /\ lastHandle (CursorSpecialEffects.win s')
                = lastHandle (CursorSpecialEffects.win s)
             /\ CursorSpecialEffects.animationId (CursorSpecialEffects.this s')
                = CursorSpecialEffects.animationId (CursorSpecialEffects.this s)
             /\ CursorSpecialEffects.running (CursorSpecialEffects.this s') = true)
         /\ (CursorSpecialEffects.running (CursorSpecialEffects.this s) = false ->
             frames (CursorSpecialEffects.win s')
             = [S (lastHandle (CursorSpecialEffects.win s))]
             /\ CursorSpecialEffects.running (CursorSpecialEffects.this s') = true).
Proof.
  intros Hreach.
  assert (Hone : forall t : CursorSpecialEffects.World,
             CursorSpecialEffects.reachable t ->
             (List.length (frames (CursorSpecialEffects.win t)) <= 1)%nat
             /\ (CursorSpecialEffects.running (CursorSpecialEffects.this t) = false ->
                 frames (CursorSpecialEffects.win t) = [])).
  { intros t Ht.
    destruct (reachable_states t Ht) as [(Hrun & _ & Hfr & _) | (Hrun & id & _ & Hfr & _)];
      rewrite Hfr; cbn; split; try lia; congruence. }
  destruct (Hone s Hreach) as [Hlen Hidle].
  split; [exact Hlen|]. split; [exact Hidle|]. intros cx cy.
  assert (Hmd := handleMouseDown_eq cx cy s).
  eexists. split; [exact Hmd|]. split.
  { apply Hone.
    apply (CursorSpecialEffects.reach_step
             (CursorSpecialEffects.MouseDown cx cy) s _ Hreach Hmd). }
  split; intros Hrun; rewrite Hrun.
  - split; [apply pressed_booms|].
    do 3 (split; [reflexivity|]). exact Hrun.
  - destruct (ran_nonempty (CursorSpecialEffects.pressed cx cy s))
      as ((Hr & _) & _ & Hfr).
    + apply pressed_booms_nonempty.
    + now apply Hidle.
    + split; [exact Hfr | exact Hr].
Qed.

Lemma C6_single_registration_witness :
  CursorSpecialEffects.reachable example_pressed
  /\ CursorSpecialEffects.running (CursorSpecialEffects.this example_pressed) = true
  /\ (List.length (frames (CursorSpecialEffects.win example_pressed)) <= 1)%nat
  /\ exists s' : CursorSpecialEffects.World,
       CursorSpecialEffects.handleMouseDown 50 50 example_pressed = Some s'
       /\ CursorSpecialEffects.booms (CursorSpecialEffects.this s')
          = CursorSpecialEffects.booms (CursorSpecialEffects.this example_pressed)
            ++ [CursorSpecialEffects.new_boom 50 50 example_pressed]
       /\ frames (CursorSpecialEffects.win s')
          = frames (CursorSpecialEffects.win example_pressed)
       /\ CursorSpecialEffects.animationId (CursorSpecialEffects.this s')
          = CursorSpecialEffects.animationId
              (CursorSpecialEffects.this example_pressed).
Proof.
  assert (Hreach := example_pressed_reachable).
  assert (Hrun := proj1 example_pressed_running).
  split; [exact Hreach|]. split; [exact Hrun|].
  split; [exact (proj1 (C6_single_registration example_pressed Hreach))|].
  destruct (proj2 (proj2 (C6_single_registration example_pressed Hreach)) 50 50)
    as (s' & Hs' & _ & Hwhile & _).
  destruct (Hwhile Hrun) as (Hb & Hf & _ & Ha & _).
  exists s'. split; [exact Hs'|]. split; [exact Hb|]. split; [exact Hf | exact Ha].
Defined.

(** ** Resizing *)

Lemma new_boom_fields (cx cy : R) (s : CursorSpecialEffects.World) :
  Boom.area (CursorSpecialEffects.new_boom cx cy s)
  = mkArea (CursorSpecialEffects.globalWidth (CursorSpecialEffects.this s))
           (CursorSpecialEffects.globalHeight (CursorSpecialEffects.this s))
  /\ Boom.stop (CursorSpecialEffects.new_boom cx cy s) = false.
Proof.
  unfold CursorSpecialEffects.new_boom, Boom.init.
  destruct (init_loop_spec
              (Boom.circleCount
                 (Boom.new (mkPoint cx cy) None
                    (mkArea (CursorSpecialEffects.globalWidth (CursorSpecialEffects.this s))
                            (CursorSpecialEffects.globalHeight (CursorSpecialEffects.this s)))))
              (Boom.new (mkPoint cx cy) None
                 (mkArea (CursorSpecialEffects.globalWidth (CursorSpecialEffects.this s))
                         (CursorSpecialEffects.globalHeight (CursorSpecialEffects.this s))))
              (random (CursorSpecialEffects.win s)))
    as (_ & _ & _ & _ & Ha & Hs & _).
  split; [exact Ha | exact Hs].
Qed.

(** The burst of a mouse-down ends up last in [booms], with the viewport of
    that moment as its area. *)
Lemma handleMouseDown_area (cx cy : R) (s : CursorSpecialEffects.World) :
  exists (s' : CursorSpecialEffects.World) (pre : list Boom.t) (b : Boom.t),
    CursorSpecialEffects.handleMouseDown cx cy s = Some s'
    /\ CursorSpecialEffects.booms (CursorSpecialEffects.this s') = pre ++ [b]
    /\ Boom.area b
       = mkArea (CursorSpecialEffects.globalWidth (CursorSpecialEffects.this s))
                (CursorSpecialEffects.globalHeight (CursorSpecialEffects.this s)).
Proof.
  destruct (new_boom_fields cx cy s) as [Ha Hs].
  rewrite handleMouseDown_eq.
  destruct (CursorSpecialEffects.running (CursorSpecialEffects.this s)).
  - eexists _, _, _. split; [reflexivity|]. split; [reflexivity | exact Ha].
  - exists (CursorSpecialEffects.ran (CursorSpecialEffects.pressed cx cy s)),
      (CursorSpecialEffects.frame_booms
         (CursorSpecialEffects.booms (CursorSpecialEffects.this s))),
      (Boom.moved (CursorSpecialEffects.new_boom cx cy s)).
    split; [reflexivity|].
    split; [|rewrite Boom_moved_area; exact Ha].
    rewrite ran_booms. cbn [CursorSpecialEffects.pressed CursorSpecialEffects.this
                            CursorSpecialEffects.set_booms CursorSpecialEffects.booms].
    rewrite frame_booms_snoc, Hs. reflexivity.
Qed.

(** C7: a resize sets [globalWidth], [globalHeight] and the size of both
    canvases to the new viewport and nothing else: [booms], and with it the
    [area] of every burst, the running flag and the scheduled frame stay as
    they were; the next frame leaves the same bursts whether or not the
    resize happened, each culled against its own [area]; a burst made by a
    mouse-down takes the viewport size current at that moment, the new one
    after the resize. *)
Theorem C7_resize_keeps_bounds (s : CursorSpecialEffects.World) (iw ih : R) :
  exists s' : CursorSpecialEffects.World,
    CursorSpecialEffects.dispatch (CursorSpecialEffects.Resize iw ih) s = Some s'
    /\ CursorSpecialEffects.booms (CursorSpecialEffects.this s')
       = CursorSpecialEffects.booms (CursorSpecialEffects.this s)
    /\ CursorSpecialEffects.running (CursorSpecialEffects.this s')
       = CursorSpecialEffects.running (CursorSpecialEffects.this s)
    /\ CursorSpecialEffects.animationId (CursorSpecialEffects.this s')
       = CursorSpecialEffects.animationId (CursorSpecialEffects.this s)
    /\ frames (CursorSpecialEffects.win s') = frames (CursorSpecialEffects.win s)
    /\ CursorSpecialEffects.globalWidth (CursorSpecialEffects.this s') = iw
    /\ CursorSpecialEffects.globalHeight (CursorSpecialEffects.this s') = ih
    /\ CursorSpecialEffects.computerCanvas (CursorSpecialEffects.this s')
       = mkCanvas iw ih
    /\ CursorSpecialEffects.renderCanvas (CursorSpecialEffects.this s')
       = mkCanvas iw ih
    /\ (exists s1 s2 : CursorSpecialEffects.World,
           CursorSpecialEffects.animationFrame s = Some s1
           /\ CursorSpecialEffects.animationFrame s' = Some s2
           /\ CursorSpecialEffects.booms (CursorSpecialEffects.this s2)
              = CursorSpecialEffects.booms (CursorSpecialEffects.this s1))
    /\ (forall cx cy : R,
           exists (s2 : CursorSpecialEffects.World) (pre : list Boom.t) (b : Boom.t),
             CursorSpecialEffects.handleMouseDown cx cy s = Some s2
             /\ CursorSpecialEffects.booms (CursorSpecialEffects.this s2)
                = pre ++ [b]
             /\ Boom.area b
                = mkArea (CursorSpecialEffects.globalWidth (CursorSpecialEffects.this s))
                         (CursorSpecialEffects.globalHeight (CursorSpecialEffects.this s)))
    /\ (forall cx cy : R,
           exists (s2 : CursorSpecialEffects.World) (pre : list Boom.t) (b : Boom.t),
             CursorSpecialEffects.handleMouseDown cx cy s' = Some s2
             /\ CursorSpecialEffects.booms (CursorSpecialEffects.this s2)
                = pre ++ [b]
             /\ Boom.area b = mkArea iw ih).
Proof.
  eexists. split; [reflexivity|].
  do 8 (split; [reflexivity|]).
  split; [|split].
  - unfold CursorSpecialEffects.animationFrame.
    cbn [CursorSpecialEffects.handleResize CursorSpecialEffects.win
         CursorSpecialEffects.this CursorSpecialEffects.resized frames].
    destruct (frames (CursorSpecialEffects.win s)) as [|id rest].
    + eexists _, _. repeat split.
    + rewrite !run_ran. eexists _, _. split; [reflexivity|].
      split; [reflexivity|]. now rewrite !ran_booms.
  - intros cx cy. apply handleMouseDown_area.
  - intros cx cy.
    apply (handleMouseDown_area cx cy
             (CursorSpecialEffects.handleResize
                (CursorSpecialEffects.mkWorld (CursorSpecialEffects.this s)
                   (CursorSpecialEffects.resized iw ih (CursorSpecialEffects.win s))))).
Qed.

(** * Further properties of the code *)

(** ** The random helpers, draw by draw *)

(** X2: for an array of length [len > 0], the index that [#randomArray]
    computes is [i] exactly when the draw lies in [[i / len, (i + 1) / len)]:
    every entry owns an interval of draws of the same width [1 / len], and a
    draw in the interval of [i] returns the entry at [i]. *)
Theorem randomIndex_interval {A : Type} (range : list A) (g : rng) (i : Z) :
  range <> [] ->
  (Boom.randomIndex (List.length range) (g O) = i
   <-> IZR i / INR (List.length range) <= g O
       < (IZR i + 1) / INR (List.length range))
  /\ (IZR i / INR (List.length range) <= g O
      < (IZR i + 1) / INR (List.length range) ->
      fst (Boom.randomArray range g) = at_index range i).
Proof.
  intros Hne.
  assert (Hpos : 0 < INR (List.length range)).
  { apply lt_0_INR. destruct range; [congruence | cbn; lia]. }
  set (L := INR (List.length range)) in *.
  assert (Hiff : Boom.randomIndex (List.length range) (g O) = i
                 <-> IZR i / L <= g O < (IZR i + 1) / L).
  { unfold Boom.randomIndex. fold L.
    assert (E1 : IZR i / L * L = IZR i) by (field; lra).
    assert (E2 : (IZR i + 1) / L * L = IZR i + 1) by (field; lra).
    split.
    - intros <-. destruct (Zfloor_bound (L * g O)) as [Hlo Hhi].
      set (z := IZR (Zfloor (L * g O))) in *.
      assert (E3 : z / L * L = z) by (field; lra).
      assert (E4 : (z + 1) / L * L = z + 1) by (field; lra).
      split; nra.
    - intros [Hlo Hhi]. apply Zfloor_eq. split; nra. }
  split; [exact Hiff|].
  intros H. apply Hiff in H. cbn. now rewrite H.
Qed.

Lemma randomIndex_interval_witness :
  Boom.palette <> []
  /\ (Boom.randomIndex (List.length Boom.palette) ((fun _ : nat => 0.5) O) = 4%Z
      <-> IZR 4 / INR (List.length Boom.palette) <= (fun _ : nat => 0.5) O
          < (IZR 4 + 1) / INR (List.length Boom.palette)).
Proof.
  assert (H : Boom.palette <> []) by discriminate.
  split; [exact H|].
  exact (proj1 (randomIndex_interval Boom.palette (fun _ : nat => 0.5) 4%Z H)).
Defined.

(** X3: with a draw in [[0, 1)], [#randomArray] returns [undefined] exactly
    when the array is empty; a draw equal to 1, which [Math.random] never
    gives, would index one past the end and return [undefined] for every
    array. *)
Theorem randomArray_undefined_iff {A : Type} (range : list A) (g : rng) :
  (0 <= g O < 1 ->
   (fst (Boom.randomArray range g) = None <-> range = []))
  /\ (g O = 1 -> fst (Boom.randomArray range g) = None).
Proof.
  split.
  - intros Hr. split.
    + intros Hnone. destruct range as [|a l]; [reflexivity|].
      destruct (randomArray_inside (a :: l) g) as (v & Hv & _);
        [discriminate | exact Hr | congruence].
    + intros ->. cbn. unfold at_index, Boom.randomIndex. cbn.
      replace (0 * g O) with (IZR 0) by lra. now rewrite ZfloorZ.
  - intros Hone. cbn. rewrite Hone. unfold Boom.randomIndex.
    replace (INR (List.length range) * 1)
      with (IZR (Z.of_nat (List.length range)))
      by (rewrite <- INR_IZR_INZ; lra).
    rewrite ZfloorZ. unfold at_index.
    destruct (Z.ltb_spec (Z.of_nat (List.length range)) 0) as [|_]; [reflexivity|].
    rewrite Nat2Z.id. now apply nth_error_None.
Qed.

Lemma randomArray_undefined_iff_witness :
  0 <= (fun _ : nat => 0) O < 1
  /\ (fst (Boom.randomArray Boom.palette (fun _ : nat => 0)) = None
      <-> Boom.palette = []).
Proof.
  assert (H : 0 <= (fun _ : nat => 0) O < 1) by lra.
  split; [exact H|].
  exact (proj1 (randomArray_undefined_iff Boom.palette (fun _ : nat => 0)) H).
Defined.

(** ** Boom.init, draw by draw *)

Lemma particle_from_shift (o : Point) (g : rng) (j : nat) :
  Boom.particle_from o (fun i => g (8 + i)%nat) j = Boom.particle_from o g (S j).
Proof.
  unfold Boom.particle_from, Boom.color_from.
  replace (8 * S j)%nat with (8 + 8 * j)%nat by lia.
  replace (8 + 8 * j + 7)%nat with (8 + (8 * j + 7))%nat by lia.
  replace (8 + 8 * j + 6)%nat with (8 + (8 * j + 6))%nat by lia.
  f_equal.
Qed.

Lemma init_loop_draws (n : nat) (b : Boom.t) (g : rng) :
  Boom.circles (fst (Boom.init_loop n b g))
  = Boom.circles b ++ map (Boom.particle_from (Boom.origin b) g) (seq 0 n)
  /\ Boom.circleCount (fst (Boom.init_loop n b g)) = Boom.circleCount b
  /\ forall i : nat, snd (Boom.init_loop n b g) i = g (8 * n + i)%nat.
Proof.
  revert b g. induction n as [|n IH]; intros b g.
  - cbn. rewrite app_nil_r. now repeat split.
  - cbn [Boom.init_loop].
    cbv beta iota delta [bind ret Boom.randomColor map_times Boom.randomArray
                         Boom.randomRange Math_random].
    match goal with
    | |- context [Boom.init_loop n ?b' ?g'] =>
        destruct (IH b' g') as (Hc & Hk & Hg)
    end.
    rewrite Hc, Hk. cbn [Boom.push Boom.circles Boom.origin Boom.circleCount].
    split; [|split; [reflexivity|]].
    + rewrite <- app_assoc. f_equal. cbn [app seq map]. f_equal.
      rewrite <- seq_shift, map_map. apply map_ext. intros j.
      apply (particle_from_shift (Boom.origin b) g j).
    + intros i. rewrite Hg.
      replace (8 * S n + i)%nat with (8 + (8 * n + i))%nat by lia.
      reflexivity.
Qed.

Lemma init_appends_by_draws_aux (b : Boom.t) (g : rng) :
  Boom.circles (fst (Boom.init b g))
  = Boom.circles b
    ++ map (Boom.particle_from (Boom.origin b) g) (seq 0 (Boom.circleCount b))
  /\ List.length (Boom.circles (fst (Boom.init b g)))
     = (List.length (Boom.circles b) + Boom.circleCount b)%nat
  /\ Boom.area (fst (Boom.init b g)) = Boom.area b.
Proof.
  unfold Boom.init.
  destruct (init_loop_draws (Boom.circleCount b) b g) as (Hc & _ & _).
  destruct (init_loop_spec (Boom.circleCount b) b g)
    as (_ & _ & _ & _ & Ha & _).
  split; [exact Hc|]. split; [|exact Ha].
  now rewrite Hc, length_app, length_map, length_seq.
Qed.



(** ** Particles of a fresh burst *)





(** ** What is left of a burst after [n] moves *)

Lemma survivors_iter_in (a : Area) (n : nat) (l : list Circle.t) (c' : Circle.t) :
  In c' (Nat.iter n (Boom.survivors a) l) ->
  exists c : Circle.t,
    In c l /\ c' = Circle.moves n c
    /\ ((1 <= n)%nat -> Boom.outside a c' = false).
Proof.
  revert c'. induction n as [|n IH]; intros c' Hin.
  - exists c'. repeat split; [exact Hin | lia].
  - rewrite Nat.iter_succ in Hin. unfold Boom.survivors at 1 in Hin.
    apply filter_In in Hin. destruct Hin as [Hin Hneg].
    apply in_map_iff in Hin. destruct Hin as (c1 & <- & Hin1).
    destruct (IH c1 Hin1) as (c & Hc & -> & _).
    exists c. split; [exact Hc|]. split; [reflexivity|].
    intros _. now apply negb_true_iff.
Qed.

Lemma survivors_iter_length (a : Area) (n : nat) (l : list Circle.t) :
  (List.length (Nat.iter n (Boom.survivors a) l) <= List.length l)%nat.
Proof.
  induction n as [|n IH]; [reflexivity|].
  rewrite Nat.iter_succ.
  etransitivity; [apply survivors_length | exact IH].
Qed.

Lemma inside_bounds (a : Area) (c : Circle.t) :
  Boom.outside a c = false ->
  0 <= x (Circle.position c) <= width a /\ y (Circle.position c) <= height a.
Proof.
  intros H.
  assert (Hn : ~ Boom.out_of_bounds a (Circle.position c)).
  { intros Ho. apply outside_spec in Ho. congruence. }
  unfold Boom.out_of_bounds in Hn.
  assert (H1 : ~ x (Circle.position c) < 0) by tauto.
  assert (H2 : ~ x (Circle.position c) > width a) by tauto.
  assert (H3 : ~ y (Circle.position c) > height a) by tauto.
  lra.
Qed.

(** X6: after the constructor, [init()] and [n] calls of [move()], the
    burst holds at most [circleCount] particles; each of them has made all
    [n] moves ([renderCount = n]), has the burst's origin as its origin
    and, once [n >= 1], lies inside the area: [0 <= x <= width] and
    [y <= height]. *)
Theorem moved_particles_inside
        (o : Point) (k : option nat) (a : Area) (g : rng) (n : nat) :
  exists bn : Boom.t,
    Boom.moves n (fst (Boom.init (Boom.new o k a) g)) = Some bn
    /\ (List.length (Boom.circles bn)
        <= match k with Some m => m | None => 10 end)%nat
    /\ Boom.area bn = a
    /\ Forall
         (fun c : Circle.t =>
            Circle.renderCount c = n
            /\ Circle.origin c = o
            /\ ((1 <= n)%nat ->
                0 <= x (Circle.position c) <= width a
                /\ y (Circle.position c) <= height a))
         (Boom.circles bn).
Proof.
  set (b0 := fst (Boom.init (Boom.new o k a) g)).
  destruct (init_appends_by_draws_aux (Boom.new o k a) g) as (Hc0 & Hl0 & Ha0).
  fold b0 in Hc0, Hl0, Ha0.
  exists (Nat.iter n Boom.moved b0). split; [apply Boom_moves_iter|].
  destruct (moved_iter_circles n b0) as [Hc Ha]. rewrite Hc, Ha, Ha0.
  split.
  { etransitivity; [apply survivors_iter_length|]. rewrite Hl0. cbn. lia. }
  split; [reflexivity|].
  apply Forall_forall. intros c' Hin.
  destruct (survivors_iter_in _ _ _ _ Hin) as (c & Hc1 & -> & Hins).
  rewrite Hc0 in Hc1. cbn [Boom.new Boom.circles app] in Hc1.
  apply in_map_iff in Hc1. destruct Hc1 as (j & <- & _).
  set (p := Boom.particle_from (Boom.origin (Boom.new o k a)) g j) in *.
  assert (Hr0 : Circle.renderCount p = O) by reflexivity.
  assert (Ho0 : Circle.origin p = o) by reflexivity.
  destruct (Circle_moves_fixed n p) as (Ho & _ & _ & _ & Hr).
  rewrite Ho, Hr, Hr0, Ho0.
  split; [lia|]. split; [reflexivity|].
  intros Hn. apply inside_bounds. exact (Hins Hn).
Qed.

(** ** How long a fresh burst lasts *)







(** ** The controller, frame by frame *)

Lemma animationFrame_eq (s : CursorSpecialEffects.World) :
  CursorSpecialEffects.animationFrame s
  = Some match frames (CursorSpecialEffects.win s) with
         | [] => s
         | _ :: rest => CursorSpecialEffects.ran (CursorSpecialEffects.fired rest s)
         end.
Proof.
  unfold CursorSpecialEffects.animationFrame.
  destruct (frames (CursorSpecialEffects.win s)); [reflexivity | apply run_ran].
Qed.

(** X8: the descending loops never read past their array. For every list
    of bursts the loop of [run], started at [booms.length], finds a burst
    at each index it visits, also after a [splice], and so does the loop of
    [Boom.move] on every list of particles: neither [booms[i]] nor
    [circles[i]] is ever [undefined], so [boom.stop] and [circle.move()]
    never fail for that reason. *)
Theorem loops_never_read_undefined :
  (forall bs : list Boom.t,
      exists bs' : list Boom.t,
        CursorSpecialEffects.run_loop (List.length bs) bs = Some bs')
  /\ (forall (a : Area) (cs : list Circle.t),
         exists cs' : list Circle.t,
           Boom.move_loop (List.length cs) a cs = Some cs')
  /\ (forall b : Boom.t, Boom.move b <> None).
Proof.
  split; [|split].
  - intros bs. generalize (run_loop_spec bs []). rewrite !app_nil_r. eauto.
  - intros a cs. generalize (move_loop_spec a cs []). rewrite !app_nil_r. eauto.
  - intros b. rewrite Boom_move_moved. discriminate.
Qed.

(** X9: with at least one burst in [booms], [run()] registers exactly one
    new frame callback, whose fresh handle it stores in [animationId], sets
    [running], and leaves in [booms], in their order, every burst that had
    not stopped, each moved exactly once; the bursts that had stopped are
    dropped, none is skipped, and a burst that stops during this call stays
    in [booms], without particles, until the next call. With [booms] empty,
    [run()] registers nothing and turns [running] off. *)
Theorem run_one_frame (s : CursorSpecialEffects.World) :
  exists s' : CursorSpecialEffects.World,
    CursorSpecialEffects.run s = Some s'
    /\ (CursorSpecialEffects.booms (CursorSpecialEffects.this s) <> [] ->
        CursorSpecialEffects.booms (CursorSpecialEffects.this s')
        = flat_map (fun b => if Boom.stop b then [] else [Boom.moved b])
                   (CursorSpecialEffects.booms (CursorSpecialEffects.this s))
        /\ frames (CursorSpecialEffects.win s')
           = frames (CursorSpecialEffects.win s)
             ++ [S (lastHandle (CursorSpecialEffects.win s))]
        /\ CursorSpecialEffects.animationId (CursorSpecialEffects.this s')
           = Some (S (lastHandle (CursorSpecialEffects.win s)))
        /\ CursorSpecialEffects.running (CursorSpecialEffects.this s') = true
        /\ (forall b : Boom.t,
               In b (CursorSpecialEffects.booms (CursorSpecialEffects.this s')) ->
               Boom.stop b = true -> Boom.circles b = []))
    /\ (CursorSpecialEffects.booms (CursorSpecialEffects.this s) = [] ->
        CursorSpecialEffects.booms (CursorSpecialEffects.this s') = []
        /\ CursorSpecialEffects.running (CursorSpecialEffects.this s') = false
        /\ lastHandle (CursorSpecialEffects.win s')
           = lastHandle (CursorSpecialEffects.win s)
        /\ forall h : nat,
             In h (frames (CursorSpecialEffects.win s')) ->
             In h (frames (CursorSpecialEffects.win s))).
Proof.
  exists (CursorSpecialEffects.ran s). split; [apply run_ran|].
  world s. unfold CursorSpecialEffects.ran. cbn [CursorSpecialEffects.this
    CursorSpecialEffects.win CursorSpecialEffects.booms frames lastHandle].
  split.
  - intros Hne. destruct bs as [|b0 bs]; [congruence|].
    cbn -[flat_map Boom.moved]. do 4 (split; [reflexivity|]).
    intros b Hin Hstop. apply in_flat_map in Hin.
    destruct Hin as (b1 & _ & Hin).
    destruct (Boom.stop b1); [destruct Hin|].
    destruct Hin as [<- | []]. now apply moved_stop.
  - intros ->. unfold CursorSpecialEffects.stopAnimation. cbn.
    destruct aid as [[|id]|]; cbn; repeat split; try tauto.
    intros h Hin. apply filter_In in Hin. tauto.
Qed.

Lemma run_one_frame_witness :
  CursorSpecialEffects.booms (CursorSpecialEffects.this example_world) <> []
  /\ exists s' : CursorSpecialEffects.World,
       CursorSpecialEffects.run example_world = Some s'
       /\ CursorSpecialEffects.running (CursorSpecialEffects.this s') = true.
Proof.
  assert (H : CursorSpecialEffects.booms (CursorSpecialEffects.this example_world)
              <> []) by discriminate.
  split; [exact H|].
  destruct (run_one_frame example_world) as (s' & Hrun & Hne & _).
  exists s'. split; [exact Hrun|].
  exact (proj1 (proj2 (proj2 (proj2 (Hne H))))).
Defined.

(** ** The loop always ends *)

Lemma frame_booms_app (l1 l2 : list Boom.t) :
  CursorSpecialEffects.frame_booms (l1 ++ l2)
  = CursorSpecialEffects.frame_booms l1 ++ CursorSpecialEffects.frame_booms l2.
Proof. apply flat_map_app. Qed.

Lemma frame_booms_iter_app (n : nat) (l1 l2 : list Boom.t) :
  Nat.iter n CursorSpecialEffects.frame_booms (l1 ++ l2)
  = Nat.iter n CursorSpecialEffects.frame_booms l1
    ++ Nat.iter n CursorSpecialEffects.frame_booms l2.
Proof.
  induction n as [|n IH]; [reflexivity|].
  now rewrite !Nat.iter_succ, IH, frame_booms_app.
Qed.

Lemma frame_booms_iter_nil (n : nat) :
  Nat.iter n CursorSpecialEffects.frame_booms [] = [].
Proof. induction n as [|n IH]; [reflexivity|]. now rewrite Nat.iter_succ, IH. Qed.

Lemma frame_booms_iter_more (n m : nat) (l : list Boom.t) :
  Nat.iter n CursorSpecialEffects.frame_booms l = [] ->
  Nat.iter (m + n) CursorSpecialEffects.frame_booms l = [].
Proof. intros H. now rewrite Nat.iter_add, H, frame_booms_iter_nil. Qed.

(** A burst that stops within [T] moves is out of [booms] after [T + 1]
    frames. *)
Lemma frame_booms_single (T : nat) :
  forall b : Boom.t,
    Boom.stop (Nat.iter T Boom.moved b) = true ->
    Nat.iter (S T) CursorSpecialEffects.frame_booms [b] = [].
Proof.
  induction T as [|T IH]; intros b Hstop.
  - cbn in *. now rewrite Hstop.
  - rewrite Nat.iter_succ_r. cbn [CursorSpecialEffects.frame_booms flat_map app].
    destruct (Boom.stop b); [apply frame_booms_iter_nil|].
    apply IH. now rewrite <- Nat.iter_succ_r.
Qed.

Lemma booms_all_leave (bs : list Boom.t) :
  exists T : nat, Nat.iter T CursorSpecialEffects.frame_booms bs = [].
Proof.
  induction bs as [|b bs [T IH]]; [now exists O|].
  destruct (Boom_exhausts b) as (Tb & _ & Hstop).
  apply frame_booms_single in Hstop.
  exists (T + S Tb)%nat. change (b :: bs) with ([b] ++ bs).
  rewrite frame_booms_iter_app, (frame_booms_iter_more (S Tb) T [b] Hstop).
  rewrite Nat.add_comm. now rewrite (frame_booms_iter_more T (S Tb) bs IH).
Qed.

Lemma frames_until_idle (T : nat) :
  forall s : CursorSpecialEffects.World,
    CursorSpecialEffects.Running s ->
    Nat.iter T CursorSpecialEffects.frame_booms
             (CursorSpecialEffects.booms (CursorSpecialEffects.this s)) = [] ->
    exists (N : nat) (s' : CursorSpecialEffects.World),
      (N <= S T)%nat
      /\ CursorSpecialEffects.animationFrames N s = Some s'
      /\ CursorSpecialEffects.Idle s'.
Proof.
  induction T as [|T IH]; intros s HR Hnil.
  - destruct (frame_empty s HR Hnil) as (s' & Hf & HI).
    exists 1%nat, s'. cbn. rewrite Hf. split; [lia | split; [reflexivity | exact HI]].
  - destruct (CursorSpecialEffects.booms (CursorSpecialEffects.this s))
      as [|b bs] eqn:Eb.
    + destruct (frame_empty s HR Eb) as (s' & Hf & HI).
      exists 1%nat, s'. cbn. rewrite Hf. split; [lia | split; [reflexivity | exact HI]].
    + destruct (frame_nonempty s HR) as (s1 & Hf & HR1 & Hb1);
        [rewrite Eb; discriminate|].
      rewrite Nat.iter_succ_r in Hnil. rewrite Eb in Hb1. rewrite <- Hb1 in Hnil.
      destruct (IH s1 HR1 Hnil) as (N & s' & HN & HfN & HI).
      exists (S N), s'. cbn. rewrite Hf. split; [lia | split; [exact HfN | exact HI]].
Qed.

(** X10: the animation loop always ends. From every reachable state, and
    from every running state with any number of bursts in any condition,
    finitely many animation frames and no other event bring the controller
    to the idle state: no burst, nothing scheduled, not running. *)
Theorem loop_always_ends (s : CursorSpecialEffects.World) :
  CursorSpecialEffects.reachable s \/ CursorSpecialEffects.Running s ->
  exists (N : nat) (s' : CursorSpecialEffects.World),
    CursorSpecialEffects.animationFrames N s = Some s'
    /\ CursorSpecialEffects.Idle s'.
Proof.
  intros H.
  assert (H' : CursorSpecialEffects.Idle s \/ CursorSpecialEffects.Running s).
  { destruct H as [H | H]; [now apply reachable_states | now right]. }
  destruct H' as [HI | HR].
  - now exists O, s.
  - destruct (booms_all_leave
                (CursorSpecialEffects.booms (CursorSpecialEffects.this s)))
      as [T HT].
    destruct (frames_until_idle T s HR HT) as (N & s' & _ & HN & HI).
    now exists N, s'.
Qed.

Lemma loop_always_ends_witness :
  (CursorSpecialEffects.reachable example_world
   \/ CursorSpecialEffects.Running example_world)
  /\ exists (N : nat) (s' : CursorSpecialEffects.World),
       CursorSpecialEffects.animationFrames N example_world = Some s'
       /\ CursorSpecialEffects.Idle s'.
Proof.
  assert (H : CursorSpecialEffects.reachable example_world
              \/ CursorSpecialEffects.Running example_world).
  { right. split; [reflexivity | exists 1%nat; repeat split; discriminate]. }
  split; [exact H|].
  exact (loop_always_ends example_world H).
Defined.

(** ** Stopping *)

(** X11: [stopAnimation()] is idempotent: a second call changes nothing.
    One call turns [running] off, leaves [booms], the canvases and the
    viewport size alone, leaves a falsy [animationId], hands out no handle
    and removes from the pending callbacks at most the one whose handle was
    in [animationId]. *)
Theorem stopAnimation_idempotent (s : CursorSpecialEffects.World) :
  CursorSpecialEffects.stopAnimation (CursorSpecialEffects.stopAnimation s)
  = CursorSpecialEffects.stopAnimation s
  /\ CursorSpecialEffects.running
       (CursorSpecialEffects.this (CursorSpecialEffects.stopAnimation s)) = false
  /\ CursorSpecialEffects.truthy
       (CursorSpecialEffects.animationId
          (CursorSpecialEffects.this (CursorSpecialEffects.stopAnimation s)))
     = false
  /\ CursorSpecialEffects.booms
       (CursorSpecialEffects.this (CursorSpecialEffects.stopAnimation s))
     = CursorSpecialEffects.booms (CursorSpecialEffects.this s)
  /\ lastHandle (CursorSpecialEffects.win (CursorSpecialEffects.stopAnimation s))
     = lastHandle (CursorSpecialEffects.win s)
  /\ forall h : nat,
       In h (frames (CursorSpecialEffects.win (CursorSpecialEffects.stopAnimation s)))
       <-> In h (frames (CursorSpecialEffects.win s))
           /\ (CursorSpecialEffects.truthy
                 (CursorSpecialEffects.animationId (CursorSpecialEffects.this s))
               = true ->
               CursorSpecialEffects.animationId (CursorSpecialEffects.this s)
               <> Some h).
Proof.
  world s. unfold CursorSpecialEffects.stopAnimation.
  destruct aid as [[|id]|]; cbn; repeat split; try tauto; try congruence.
  - apply filter_In in H. tauto.
  - intros _ E. apply filter_In in H. destruct H as [_ Hne].
    injection E as <-. now rewrite Nat.eqb_refl in Hne.
  - intros [Hin Hne]. apply filter_In. split; [exact Hin|].
    apply negb_true_iff, Nat.eqb_neq. intros ->. now apply Hne.
Qed.

(** X12: from every reachable state, [handlePageHide()] leads to the idle
    state: [booms] is emptied, the pending callback is cancelled, [running]
    is off and [animationId] is [null]; an animation frame after it finds
    nothing to run and changes nothing, and the handle counter is
    untouched, so a cancelled handle is never handed out again. *)
Theorem pagehide_resets (s : CursorSpecialEffects.World) :
  CursorSpecialEffects.reachable s ->
  CursorSpecialEffects.Idle (CursorSpecialEffects.handlePageHide s)
  /\ CursorSpecialEffects.animationFrame (CursorSpecialEffects.handlePageHide s)
     = Some (CursorSpecialEffects.handlePageHide s)
  /\ lastHandle (CursorSpecialEffects.win (CursorSpecialEffects.handlePageHide s))
     = lastHandle (CursorSpecialEffects.win s)
  /\ CursorSpecialEffects.globalWidth
       (CursorSpecialEffects.this (CursorSpecialEffects.handlePageHide s))
     = CursorSpecialEffects.globalWidth (CursorSpecialEffects.this s)
  /\ CursorSpecialEffects.globalHeight
       (CursorSpecialEffects.this (CursorSpecialEffects.handlePageHide s))
     = CursorSpecialEffects.globalHeight (CursorSpecialEffects.this s).
Proof.
  intros Hreach.
  assert (HI := pageHide_Idle s (reachable_states s Hreach)).
  split; [exact HI|]. split.
  - unfold CursorSpecialEffects.animationFrame.
    destruct HI as (_ & _ & -> & _). reflexivity.
  - world s. unfold CursorSpecialEffects.handlePageHide,
      CursorSpecialEffects.stopAnimation.
    destruct aid as [[|id]|]; cbn; repeat split.
Qed.

Lemma pagehide_resets_witness :
  CursorSpecialEffects.reachable example_pressed
  /\ CursorSpecialEffects.Running example_pressed
  /\ CursorSpecialEffects.Idle (CursorSpecialEffects.handlePageHide example_pressed).
Proof.
  assert (H := example_pressed_reachable).
  split; [exact H|]. split; [exact example_pressed_running|].
  exact (proj1 (pagehide_resets example_pressed H)).
Defined.

(** ** Invariants of the reachable states *)

Lemma ran_sized (s : CursorSpecialEffects.World) :
  CursorSpecialEffects.sized s ->
  CursorSpecialEffects.sized (CursorSpecialEffects.ran s).
Proof.
  world s. unfold CursorSpecialEffects.sized, CursorSpecialEffects.ran,
    CursorSpecialEffects.stopAnimation. cbn.
  destruct bs as [|b bs]; [destruct aid as [[|id]|]|]; cbn; tauto.
Qed.

Lemma pageHide_sized (s : CursorSpecialEffects.World) :
  CursorSpecialEffects.sized s ->
  CursorSpecialEffects.sized (CursorSpecialEffects.handlePageHide s).
Proof.
  world s. unfold CursorSpecialEffects.sized, CursorSpecialEffects.handlePageHide,
    CursorSpecialEffects.stopAnimation. cbn.
  destruct aid as [[|id]|]; cbn; tauto.
Qed.

(** X13: in every reachable state both canvases have exactly the size kept
    in [globalWidth] and [globalHeight]: the three are only ever written
    together, by [handleResize], which [init] calls once. So the rectangle
    [(0, 0, globalWidth, globalHeight)] that [run()] clears and copies is
    always the whole canvas. *)
Theorem canvases_have_stored_size (s : CursorSpecialEffects.World) :
  CursorSpecialEffects.reachable s ->
  CursorSpecialEffects.computerCanvas (CursorSpecialEffects.this s)
  = mkCanvas (CursorSpecialEffects.globalWidth (CursorSpecialEffects.this s))
             (CursorSpecialEffects.globalHeight (CursorSpecialEffects.this s))
  /\ CursorSpecialEffects.renderCanvas (CursorSpecialEffects.this s)
     = mkCanvas (CursorSpecialEffects.globalWidth (CursorSpecialEffects.this s))
                (CursorSpecialEffects.globalHeight (CursorSpecialEffects.this s)).
Proof.
  intros Hreach.
  change (CursorSpecialEffects.sized s).
  induction Hreach as [iw ih last g | e s s' _ IH Hstep].
  - cbn. now split.
  - destruct e as [cx cy | | iw ih |];
      cbn [CursorSpecialEffects.dispatch] in Hstep.
    + rewrite handleMouseDown_eq in Hstep. injection Hstep as <-.
      destruct (CursorSpecialEffects.running (CursorSpecialEffects.this s));
        [exact IH | apply ran_sized; exact IH].
    + injection Hstep as <-. now apply pageHide_sized.
    + injection Hstep as <-. cbn. now split.
    + rewrite animationFrame_eq in Hstep. injection Hstep as <-.
      destruct (frames (CursorSpecialEffects.win s)); [exact IH|].
      apply ran_sized. exact IH.
Qed.

Lemma canvases_have_stored_size_witness :
  CursorSpecialEffects.reachable example_pressed
  /\ CursorSpecialEffects.computerCanvas (CursorSpecialEffects.this example_pressed)
     = mkCanvas
         (CursorSpecialEffects.globalWidth (CursorSpecialEffects.this example_pressed))
         (CursorSpecialEffects.globalHeight (CursorSpecialEffects.this example_pressed)).
Proof.
  assert (H := example_pressed_reachable).
  split; [exact H|].
  exact (proj1 (canvases_have_stored_size example_pressed H)).
Defined.

Lemma move_on_track (b : Boom.t) (n : nat) (c : Circle.t) :
  CursorSpecialEffects.on_track b n c ->
  Boom.outside (Boom.area b) (Circle.move c) = false ->
  CursorSpecialEffects.on_track (Boom.moved b) (S n) (Circle.move c).
Proof.
  intros (Hr & Ho & _) Hin.
  unfold CursorSpecialEffects.on_track.
  cbn [Boom.moved Boom.origin Boom.area].
  split; [cbn; now rewrite Hr|]. split; [exact Ho|].
  intros _. now apply inside_bounds.
Qed.

Lemma moved_well_kept (b : Boom.t) :
  CursorSpecialEffects.well_kept b ->
  CursorSpecialEffects.well_kept (Boom.moved b).
Proof.
  intros (Hk & Hlen & _ & n & Hall).
  split; [exact Hk|]. split.
  { cbn [Boom.moved Boom.circles].
    etransitivity; [apply survivors_length | exact Hlen]. }
  split; [apply moved_stop|].
  exists (S n). apply Forall_forall. intros c' Hin.
  cbn [Boom.moved Boom.circles] in Hin. unfold Boom.survivors in Hin.
  apply filter_In in Hin. destruct Hin as [Hin Hneg].
  apply in_map_iff in Hin. destruct Hin as (c & <- & Hc).
  rewrite Forall_forall in Hall.
  apply move_on_track; [now apply Hall | now apply negb_true_iff].
Qed.

Lemma frame_booms_well_kept (bs : list Boom.t) :
  Forall CursorSpecialEffects.well_kept bs ->
  Forall CursorSpecialEffects.well_kept (CursorSpecialEffects.frame_booms bs).
Proof.
  intros H. apply Forall_forall. intros b Hin.
  apply in_flat_map in Hin. destruct Hin as (b0 & Hb0 & Hin).
  destruct (Boom.stop b0); [destruct Hin|].
  destruct Hin as [<- | []]. apply moved_well_kept.
  rewrite Forall_forall in H. now apply H.
Qed.

Lemma new_boom_circles (cx cy : R) (s : CursorSpecialEffects.World) :
  Boom.circles (CursorSpecialEffects.new_boom cx cy s)
  = map (Boom.particle_from (mkPoint cx cy) (random (CursorSpecialEffects.win s)))
        (seq 0 10)
  /\ Boom.circleCount (CursorSpecialEffects.new_boom cx cy s) = 10%nat
  /\ Boom.origin (CursorSpecialEffects.new_boom cx cy s) = mkPoint cx cy.
Proof.
  unfold CursorSpecialEffects.new_boom.
  set (b := Boom.new _ _ _).
  destruct (init_loop_draws (Boom.circleCount b) b
                            (random (CursorSpecialEffects.win s)))
    as (Hc & Hk & _).
  destruct (init_loop_spec (Boom.circleCount b) b
                           (random (CursorSpecialEffects.win s)))
    as (_ & _ & _ & Ho & _ & _ & _).
  unfold Boom.init. rewrite Hc, Hk, Ho. now repeat split.
Qed.

Lemma new_boom_well_kept (cx cy : R) (s : CursorSpecialEffects.World) :
  CursorSpecialEffects.well_kept (CursorSpecialEffects.new_boom cx cy s).
Proof.
  destruct (new_boom_circles cx cy s) as (Hc & Hk & Ho).
  destruct (new_boom_fields cx cy s) as [_ Hs].
  split; [exact Hk|]. split; [rewrite Hc, length_map, length_seq; lia|].
  split; [congruence|].
  exists O. rewrite Hc. apply Forall_forall. intros c Hin.
  apply in_map_iff in Hin. destruct Hin as (j & <- & _).
  unfold CursorSpecialEffects.on_track. rewrite Ho.
  cbn [Boom.particle_from Circle.new Circle.renderCount Circle.origin].
  split; [reflexivity|]. split; [reflexivity | lia].
Qed.

Lemma reachable_well_kept (s : CursorSpecialEffects.World) :
  CursorSpecialEffects.reachable s ->
  Forall CursorSpecialEffects.well_kept
         (CursorSpecialEffects.booms (CursorSpecialEffects.this s)).
Proof.
  induction 1 as [iw ih last g | e s s' Hreach IH Hstep].
  - constructor.
  - destruct e as [cx cy | | iw ih |];
      cbn [CursorSpecialEffects.dispatch] in Hstep.
    + rewrite handleMouseDown_eq in Hstep. injection Hstep as <-.
      assert (Hp : Forall CursorSpecialEffects.well_kept
                          (CursorSpecialEffects.booms
                             (CursorSpecialEffects.this
                                (CursorSpecialEffects.pressed cx cy s)))).
      { rewrite pressed_booms. apply Forall_app. split; [exact IH|].
        constructor; [apply new_boom_well_kept | constructor]. }
      destruct (CursorSpecialEffects.running (CursorSpecialEffects.this s));
        [exact Hp|].
      rewrite ran_booms. now apply frame_booms_well_kept.
    + injection Hstep as <-.
      assert (HI := pageHide_Idle s (reachable_states s Hreach)).
      destruct HI as (_ & _ & _ & ->). constructor.
    + injection Hstep as <-. exact IH.
    + rewrite animationFrame_eq in Hstep. injection Hstep as <-.
      destruct (frames (CursorSpecialEffects.win s)); [exact IH|].
      rewrite ran_booms. now apply frame_booms_well_kept.
Qed.

(** X14: in every reachable state, every burst in [booms] was made with 10
    particles and holds at most 10; all its particles have the same
    [renderCount] [n] and the burst's origin as theirs; if they have moved
    at all they lie inside the burst's own area ([0 <= x <= width],
    [y <= height]); and a burst whose [stop] is true has no particles. *)
Theorem bursts_well_kept (s : CursorSpecialEffects.World) (b : Boom.t) :
  CursorSpecialEffects.reachable s ->
  In b (CursorSpecialEffects.booms (CursorSpecialEffects.this s)) ->
  Boom.circleCount b = 10%nat
  /\ (List.length (Boom.circles b) <= 10)%nat
  /\ (Boom.stop b = true -> Boom.circles b = [])
  /\ exists n : nat,
       forall c : Circle.t,
         In c (Boom.circles b) ->
         Circle.renderCount c = n
         /\ Circle.origin c = Boom.origin b
         /\ ((1 <= n)%nat ->
             0 <= x (Circle.position c) <= width (Boom.area b)
             /\ y (Circle.position c) <= height (Boom.area b)).
Proof.
  intros Hreach Hin.
  assert (H := reachable_well_kept s Hreach).
  rewrite Forall_forall in H. destruct (H b Hin) as (Hk & Hl & Hs & n & Hall).
  split; [exact Hk|]. split; [exact Hl|]. split; [exact Hs|].
  exists n. intros c Hc. rewrite Forall_forall in Hall. exact (Hall c Hc).
Qed.

Lemma example_pressed_booms :
  CursorSpecialEffects.booms (CursorSpecialEffects.this example_pressed)
  = [Boom.moved (CursorSpecialEffects.new_boom 100 100 example_boot)].
Proof.
  unfold example_pressed. rewrite ran_booms.
  rewrite pressed_booms.
  change (CursorSpecialEffects.booms (CursorSpecialEffects.this example_boot))
    with (@nil Boom.t).
  cbn [app CursorSpecialEffects.frame_booms flat_map].
  now rewrite (proj2 (new_boom_fields 100 100 example_boot)).
Qed.

Lemma bursts_well_kept_witness :
  CursorSpecialEffects.reachable example_pressed
  /\ In (Boom.moved (CursorSpecialEffects.new_boom 100 100 example_boot))
        (CursorSpecialEffects.booms (CursorSpecialEffects.this example_pressed))
  /\ Boom.circleCount (Boom.moved (CursorSpecialEffects.new_boom 100 100 example_boot))
     = 10%nat.
Proof.
  assert (Hr := example_pressed_reachable).
  assert (Hin : In (Boom.moved (CursorSpecialEffects.new_boom 100 100 example_boot))
                   (CursorSpecialEffects.booms
                      (CursorSpecialEffects.this example_pressed)))
    by (rewrite example_pressed_booms; now left).
  split; [exact Hr|]. split; [exact Hin|].
  exact (proj1 (bursts_well_kept example_pressed _ Hr Hin)).
Defined.

(** ** A mouse-down, from the press to the end of the burst *)

Lemma Boom_moved_circles (b : Boom.t) :
  Boom.circles (Boom.moved b) = Boom.survivors (Boom.area b) (Boom.circles b).
Proof. reflexivity. Qed.

Lemma idle_press_booms (cx cy : R) (s : CursorSpecialEffects.World) :
  CursorSpecialEffects.booms (CursorSpecialEffects.this s) = [] ->
  CursorSpecialEffects.booms
    (CursorSpecialEffects.this
       (CursorSpecialEffects.ran (CursorSpecialEffects.pressed cx cy s)))
  = [Boom.moved (CursorSpecialEffects.new_boom cx cy s)].
Proof.
  intros Hb. rewrite ran_booms, pressed_booms, Hb.
  cbn [app CursorSpecialEffects.frame_booms flat_map].
  now rewrite (proj2 (new_boom_fields cx cy s)).
Qed.

Lemma not_running_idle (s : CursorSpecialEffects.World) :
  CursorSpecialEffects.reachable s ->
  CursorSpecialEffects.running (CursorSpecialEffects.this s) = false ->
  CursorSpecialEffects.Idle s.
Proof.
  intros Hreach Hrun.
  destruct (reachable_states s Hreach) as [HI | [HR _]]; [exact HI | congruence].
Qed.

(** X15: a mouse-down in a reachable state that is not running makes the
    new burst the only one and moves it once before the handler returns:
    every particle then has [renderCount = 1]. A mouse-down while running
    only appends the burst: its 10 particles still have [renderCount = 0]
    and sit at the position of the press until the next frame. *)
Theorem mouse_down_first_move (cx cy : R) (s : CursorSpecialEffects.World) :
  CursorSpecialEffects.reachable s ->
  exists s' : CursorSpecialEffects.World,
    CursorSpecialEffects.handleMouseDown cx cy s = Some s'
    /\ (CursorSpecialEffects.running (CursorSpecialEffects.this s) = false ->
        CursorSpecialEffects.booms (CursorSpecialEffects.this s')
        = [Boom.moved (CursorSpecialEffects.new_boom cx cy s)]
        /\ forall c : Circle.t,
             In c (Boom.circles
                     (Boom.moved (CursorSpecialEffects.new_boom cx cy s))) ->
             Circle.renderCount c = 1%nat)
    /\ (CursorSpecialEffects.running (CursorSpecialEffects.this s) = true ->
        CursorSpecialEffects.booms (CursorSpecialEffects.this s')
        = CursorSpecialEffects.booms (CursorSpecialEffects.this s)
          ++ [CursorSpecialEffects.new_boom cx cy s]
        /\ List.length (Boom.circles (CursorSpecialEffects.new_boom cx cy s))
           = 10%nat
        /\ forall c : Circle.t,
             In c (Boom.circles (CursorSpecialEffects.new_boom cx cy s)) ->
             Circle.renderCount c = O
             /\ Circle.position c = mkPoint cx cy).
Proof.
  intros Hreach. rewrite handleMouseDown_eq.
  destruct (new_boom_circles cx cy s) as (Hc & _ & _).
  destruct (CursorSpecialEffects.running (CursorSpecialEffects.this s)) eqn:Hrun.
  - exists (CursorSpecialEffects.pressed cx cy s).
    split; [reflexivity|]. split; [discriminate|]. intros _.
    split; [apply pressed_booms|]. rewrite Hc.
    split; [now rewrite length_map, length_seq|].
    intros c Hin. apply in_map_iff in Hin. destruct Hin as (j & <- & _).
    split; reflexivity.
  - exists (CursorSpecialEffects.ran (CursorSpecialEffects.pressed cx cy s)).
    split; [reflexivity|]. split; [|discriminate]. intros _.
    destruct (not_running_idle s Hreach Hrun) as (_ & _ & _ & Hb).
    split; [now apply idle_press_booms|].
    intros c Hin. rewrite Boom_moved_circles, Hc in Hin.
    unfold Boom.survivors in Hin. apply filter_In in Hin.
    destruct Hin as [Hin _]. rewrite map_map in Hin.
    apply in_map_iff in Hin. destruct Hin as (j & <- & _). reflexivity.
Qed.

Lemma mouse_down_first_move_witness :
  CursorSpecialEffects.reachable example_boot
  /\ exists s' : CursorSpecialEffects.World,
       CursorSpecialEffects.handleMouseDown 100 100 example_boot = Some s'.
Proof.
  assert (H : CursorSpecialEffects.reachable example_boot)
    by apply CursorSpecialEffects.reach_boot.
  split; [exact H|].
  destruct (mouse_down_first_move 100 100 example_boot H) as (s' & Hs' & _).
  exists s'. exact Hs'.
Defined.


